(** * crypto-bot: symbol resolution, price cache, conversion and formatting

    A shallow embedding of [bot.py] and the properties of its core:
    the normalizer [nrm], the symbol resolver [symbol_to_id] with its
    12-hour cache, the price fetcher [get_prices] with its 60-second cache,
    the conversion logic of [handle_message] and the formatter [fmt].

    Modelling choices.
    - A Python [str] is a list of Unicode code points ([list N]); [lit]
      turns an ASCII literal into one.
    - A Python [float] is a binary64 primitive float; prices and amounts
      are floats, as the annotation [Dict[str, Dict[str, float]]] says, so
      [float(p)] on a price is the identity.
    - JSON objects are finite maps ([gmap]) keyed by strings.  The body of
      an answer is typed by its endpoint: a list of records with string
      fields for the asset list, a table of prices for the price endpoint.
    - The items of the two [TTLCache] objects, the monotonic clock, the
      remote data source and the messages sent back are fields of an
      explicit [world]; coroutines are functions in a state-and-exception
      monad [M] over it.  Time passes only while a coroutine awaits the
      network; every request and every cache operation is logged. *)

From Stdlib Require Import ZArith NArith List String Ascii Floats Lia.
From Stdlib Require Import Sorting.Permutation Sorting.Sorted.
From stdpp Require Import base option list gmap sorting.

#[local] Set Warnings "-inexact-float".
#[local] Open Scope Z_scope.

(** ** Strings *)

Abbreviation str := (list N).

Definition lit (s : string) : str :=
  map N_of_ascii (list_ascii_of_string s).

(** [sep.join(parts)] *)
Fixpoint join (sep : str) (parts : list str) : str :=
  match parts with
  | [] => []
  | [p] => p
  | p :: rest => p ++ sep ++ join sep rest
  end.

(** [s.lower()] on one code point.  ASCII capitals move to their small
    letters; U+0130 lowers to "i" followed by U+0307 and U+212A (the Kelvin
    sign) lowers to "k".  Every other code point that Python's [lower]
    changes is mapped outside ASCII, where [nrm] deletes it either way, so
    it is left as it is here. *)
Definition lower_char (c : N) : str :=
  if ((65 <=? c) && (c <=? 90))%N then [(c + 32)%N]
  else if (c =? 304)%N then [105; 775]%N
  else if (c =? 8490)%N then [107]%N
  else [c].

Definition lower (s : str) : str := flat_map lower_char s.

(** [s.upper()], used only on normalized keys (letters and digits). *)
Definition upper (s : str) : str :=
  map (fun c => if ((97 <=? c) && (c <=? 122))%N then (c - 32)%N else c) s.

(** The character class [[a-z0-9]]. *)
Definition is_az09 (c : N) : bool :=
  (((97 <=? c) && (c <=? 122)) || ((48 <=? c) && (c <=? 57)))%N.

(** [nrm(s) = re.sub(r"[^a-z0-9]", "", s.lower())] *)
Definition nrm (s : str) : str := List.filter is_az09 (lower s).

(** Comparison of strings: lexicographic on code points, a proper prefix
    first (Python's [<] on [str]). *)
Fixpoint str_cmp (a b : str) : comparison :=
  match a, b with
  | [], [] => Eq
  | [], _ :: _ => Lt
  | _ :: _, [] => Gt
  | x :: a', y :: b' =>
      match (x ?= y)%N with
      | Eq => str_cmp a' b'
      | c => c
      end
  end.

Definition str_le (a b : str) : Prop := str_cmp a b <> Gt.
Definition str_leb (a b : str) : bool :=
  match str_cmp a b with Gt => false | _ => true end.
Definition str_lem (a b : str) : Prop := str_leb a b = true.

(** ** Sorting

    [sorted] and [list.sort] are stable; [sort_by] is the stable insertion
    sort for a key order [leb]: an element is placed before the first
    element of the sorted tail that is not strictly smaller. *)
Section Sort.
Context {A : Type} (leb : A -> A -> bool).

Fixpoint insert_by (x : A) (l : list A) : list A :=
  match l with
  | [] => [x]
  | y :: l' => if leb x y then x :: y :: l' else y :: insert_by x l'
  end.

Fixpoint sort_by (l : list A) : list A :=
  match l with
  | [] => []
  | x :: l' => insert_by x (sort_by l')
  end.
End Sort.

(** [sorted(l)] on a list of strings. *)
Definition sorted (l : list str) : list str := sort_by str_leb l.

(** ** Constants of the module *)

Definition COINGECKO_API : str := lit "https://api.coingecko.com/api/v3".

Definition COMMON_IDS : gmap str str :=
  list_to_map (map (fun p => (lit (fst p), lit (snd p)))
    [ ("btc", "bitcoin"); ("xbt", "bitcoin"); ("eth", "ethereum"); ("sol", "solana");
      ("ada", "cardano"); ("xrp", "ripple"); ("doge", "dogecoin"); ("dot", "polkadot");
      ("matic", "matic-network"); ("avax", "avalanche-2"); ("ltc", "litecoin");
      ("bch", "bitcoin-cash"); ("atom", "cosmos"); ("link", "chainlink"); ("uni", "uniswap");
      ("arb", "arbitrum"); ("op", "optimism"); ("ton", "the-open-network"); ("xlm", "stellar");
      ("etc", "ethereum-classic"); ("near", "near"); ("apt", "aptos"); ("ftm", "fantom");
      ("fil", "filecoin"); ("hnt", "helium") ]%string).

Definition FIAT_WHITELIST : gset str :=
  list_to_set (map lit
    [ "usd"; "eur"; "gbp"; "jpy"; "cny"; "aud"; "cad"; "chf"; "inr"; "brl"; "mxn"; "sek"; "nok";
      "dkk"; "pln"; "zar"; "hkd"; "sgd"; "thb"; "twd"; "idr"; "php"; "try"; "ils"; "nzd"; "rub";
      "aed"; "sar"; "ngn"; "ars"; "clp"; "czk"; "ron" ]%string).

(** ** Formatting of floats *)

(** Decimal digits of a natural number, [str(n)]. *)
Fixpoint uint_str (d : Decimal.uint) : str :=
  match d with
  | Decimal.Nil => []
  | Decimal.D0 d => 48%N :: uint_str d
  | Decimal.D1 d => 49%N :: uint_str d
  | Decimal.D2 d => 50%N :: uint_str d
  | Decimal.D3 d => 51%N :: uint_str d
  | Decimal.D4 d => 52%N :: uint_str d
  | Decimal.D5 d => 53%N :: uint_str d
  | Decimal.D6 d => 54%N :: uint_str d
  | Decimal.D7 d => 55%N :: uint_str d
  | Decimal.D8 d => 56%N :: uint_str d
  | Decimal.D9 d => 57%N :: uint_str d
  end.

Definition digits (n : Z) : str := uint_str (N.to_uint (Z.to_N n)).

(** [digits n] padded with zeros on the left to [width] characters. *)
Definition zfill (width : nat) (n : Z) : str :=
  let d := digits n in
  repeat 48%N (width - length d) ++ d.

(** The [,] option: a comma before every group of three digits, counted
    from the right. *)
Fixpoint group3_rev (r : str) : str :=
  match r with
  | a :: b :: c :: ((_ :: _) as rest) => a :: b :: c :: 44%N :: group3_rev rest
  | _ => r
  end.

Definition group3 (ds : str) : str := rev (group3_rev (rev ds)).

(** [num / den] rounded to the nearest integer, ties to even
    ([0 <= num], [0 < den]). *)
Definition round_half_even (num den : Z) : Z :=
  let q := num / den in
  match (2 * (num mod den) ?= den) with
  | Lt => q
  | Gt => q + 1
  | Eq => if Z.even q then q else q + 1
  end.

(** [m * 2^e * 10^prec] rounded to an integer: the digits that a correctly
    rounded conversion to [prec] decimal places prints. *)
Definition scaled (m : positive) (e : Z) (prec : nat) : Z :=
  if 0 <=? e then Z.pos m * 2 ^ e * 10 ^ Z.of_nat prec
  else round_half_even (Z.pos m * 10 ^ Z.of_nat prec) (2 ^ (- e)).

Definition sign_str (s : bool) : str := if s then lit "-" else [].

(** Sign, integer part, and [prec] decimals of [n / 10^prec]. *)
Definition fixed (grouping : bool) (prec : nat) (s : bool) (n : Z) : str :=
  let ip := digits (n / 10 ^ Z.of_nat prec) in
  sign_str s ++ (if grouping then group3 ip else ip)
  ++ match prec with
     | O => []
     | _ => lit "." ++ zfill prec (n mod 10 ^ Z.of_nat prec)
     end.

(** [format(x, ",.{prec}f")] with [grouping], [format(x, ".{prec}f")]
    without. *)
Definition format_f (grouping : bool) (prec : nat) (x : float) : str :=
  match Prim2SF x with
  | S754_nan => lit "nan"
  | S754_infinity s => sign_str s ++ lit "inf"
  | S754_zero s => fixed grouping prec s 0
  | S754_finite s m e => fixed grouping prec s (scaled m e prec)
  end.

(** [s.rstrip(chars)] *)
Definition rstrip (chars : str) (s : str) : str :=
  fold_right
    (fun c acc =>
       match acc with
       | [] => if bool_decide (c ∈ chars) then [] else [c]
       | _ => c :: acc
       end) [] s.

Definition fmt (x : float) (quote : str) : str :=
  let q := nrm quote in
  if bool_decide (q ∈ FIAT_WHITELIST) then
    if (1 <=? x)%float then format_f true 2 x
    else if (0.01 <=? x)%float then format_f true 4 x
    else format_f false 8 x
  else
    if (1 <=? x)%float then rstrip (lit ".") (rstrip (lit "0") (format_f false 6 x))
    else rstrip (lit ".") (rstrip (lit "0") (format_f false 10 x)).

(** ** Exceptions and the coroutine monad *)

Inductive exn :=
| ClientError (what : str)   (* raised by [session.get]: connection failure, timeout *)
| RuntimeError (msg : str)   (* raised by [fetch_json] on a status other than 200 *)
| JSONDecodeError            (* raised by [resp.json()] *)
| KeyError (k : str)
| ValueError (msg : str)
| TypeError
| ZeroDivisionError.

Inductive result (A : Type) :=
| Ok (a : A)
| Raise (e : exn).
Arguments Ok {A} a.
Arguments Raise {A} e.

(** ** TTLCache

    [cachetools.TTLCache] with unit item size: an ordered association list,
    least recently used first, each key with its value and the time at
    which it expires.  [maxsize] and [ttl] are fixed at construction. *)
Record TTLCache := { maxsize : Z; ttl : Z }.

(** One second of the monotonic clock, in clock ticks (nanoseconds). *)
Definition second : Z := 1000000000.

Definition symbol_cache : TTLCache := {| maxsize := 5000; ttl := 60 * 60 * 12 * second |}.
Definition price_cache : TTLCache := {| maxsize := 5000; ttl := 60 * second |}.

Section Links.
Context {V : Type}.

Definition links : Type := list (str * (V * Z)).

Definition find (k : str) (l : links) : option (V * Z) :=
  snd <$> List.find (fun e => bool_decide (fst e = k)) l.

Definition remove (k : str) (l : links) : links :=
  List.filter (fun e => negb (bool_decide (fst e = k))) l.

(** [key in cache]: present and not expired; the order is untouched. *)
Definition contains (t : Z) (k : str) (l : links) : bool :=
  match find k l with
  | Some (_, expires) => t <? expires
  | None => false
  end.

(** [cache[key]]: a present key becomes the most recently used one; an
    absent or expired key is a [KeyError] ([None] here). *)
Definition getitem (t : Z) (k : str) (l : links) : option V * links :=
  match find k l with
  | None => (None, l)
  | Some (v, expires) =>
      (if t <? expires then Some v else None, remove k l ++ [(k, (v, expires))])
  end.

(** [cache.expire(time)] *)
Definition expire (t : Z) (l : links) : links :=
  List.filter (fun e => t <? snd (snd e)) l.

(** [cache[key] = value]: expired items go first, then, for a new key,
    least recently used items until there is room; the key is stored as
    the most recently used one and expires [ttl] later.  [None] is the
    [ValueError] of a cache too small for one item. *)
Definition setitem (c : TTLCache) (t : Z) (k : str) (v : V) (l : links) : option links :=
  if maxsize c <? 1 then None
  else
    let l1 := expire t l in
    let l2 := match find k l1 with
              | Some _ => l1
              | None => drop (Z.to_nat (Z.of_nat (length l1) + 1 - maxsize c)) l1
              end in
    Some (remove k l2 ++ [(k, (v, t + ttl c))]).
End Links.
Arguments links V : clear implicits.

(** ** The world *)

(** A record of the asset list: a JSON object with string values. *)
Abbreviation coin := (gmap str str).

(** The price table: asset id, then currency code, then price. *)
Abbreviation prices := (gmap str (gmap str float)).

(** What one GET comes to: no response at all, or a status with the body
    as text and, when the body is JSON of the endpoint's type, its value. *)
Inductive http (A : Type) :=
| NoResponse (what : str)
| Response (status : Z) (text : str) (json : option A).
Arguments NoResponse {A} what.
Arguments Response {A} status text json.

Record answer (A : Type) := { elapsed : N; outcome : http A }.
Arguments elapsed {A} a.
Arguments outcome {A} a.

Abbreviation params := (list (str * str)).

(** The remote data source: the answer to the [n]-th request of the run,
    by endpoint, with the time it takes. *)
Record remote := {
  coins_list : nat -> params -> answer (list coin);
  simple_price : nat -> params -> answer prices
}.

Inductive cache_name := SymbolCache | PriceCache.

Inductive access :=
| Contains (c : cache_name) (k : str)
| GetItem (c : cache_name) (k : str)
| SetItem (c : cache_name) (k : str).

(** The arguments of the reply's f-string. *)
Inductive message :=
| UnknownBase (raw : str)
| UnknownQuote (raw : str)
| PriceUnavailable
| Converted (amt : float) (base : str) (total : float) (quote : str) (rate : float).

Record world := {
  now : Z;                                   (* [time.monotonic()] *)
  symbol_links : links (option str);         (* items of [symbol_cache] *)
  price_links : links prices;                (* items of [price_cache] *)
  net : remote;
  requests : list (str * params);            (* GETs issued, oldest first *)
  accesses : list access;                    (* cache operations, oldest first *)
  sent : list message                        (* replies, oldest first *)
}.

Definition M (A : Type) : Type := world -> result A * world.

Definition ret {A} (a : A) : M A := fun w => (Ok a, w).
Definition raise {A} (e : exn) : M A := fun w => (Raise e, w).
Definition bind {A B} (m : M A) (k : A -> M B) : M B :=
  fun w =>
    match m w with
    | (Ok a, w') => k a w'
    | (Raise e, w') => (Raise e, w')
    end.

Notation "x <- m ;; k" := (bind m (fun x => k))
  (at level 100, m at next level, right associativity).
Notation "m ;;; k" := (bind m (fun _ => k))
  (at level 100, right associativity).

Definition set_symbol_links (l : links (option str)) (a : access) (w : world) : world :=
  {| now := now w; symbol_links := l; price_links := price_links w; net := net w;
     requests := requests w; accesses := accesses w ++ [a]; sent := sent w |}.

Definition set_price_links (l : links prices) (a : access) (w : world) : world :=
  {| now := now w; symbol_links := symbol_links w; price_links := l; net := net w;
     requests := requests w; accesses := accesses w ++ [a]; sent := sent w |}.

(** [key in symbol_cache], [symbol_cache[key]], [symbol_cache[key] = v] *)
Definition symbol_cache_contains (k : str) : M bool :=
  fun w => (Ok (contains (now w) k (symbol_links w)),
            set_symbol_links (symbol_links w) (Contains SymbolCache k) w).

Definition symbol_cache_getitem (k : str) : M (option str) :=
  fun w =>
    let '(r, l) := getitem (now w) k (symbol_links w) in
    (match r with Some v => Ok v | None => Raise (KeyError k) end,
     set_symbol_links l (GetItem SymbolCache k) w).

Definition symbol_cache_setitem (k : str) (v : option str) : M unit :=
  fun w =>
    match setitem symbol_cache (now w) k v (symbol_links w) with
    | Some l => (Ok tt, set_symbol_links l (SetItem SymbolCache k) w)
    | None => (Raise (ValueError (lit "value too large")), w)
    end.

(** The same three operations on [price_cache]. *)
Definition price_cache_contains (k : str) : M bool :=
  fun w => (Ok (contains (now w) k (price_links w)),
            set_price_links (price_links w) (Contains PriceCache k) w).

Definition price_cache_getitem (k : str) : M prices :=
  fun w =>
    let '(r, l) := getitem (now w) k (price_links w) in
    (match r with Some v => Ok v | None => Raise (KeyError k) end,
     set_price_links l (GetItem PriceCache k) w).

Definition price_cache_setitem (k : str) (v : prices) : M unit :=
  fun w =>
    match setitem price_cache (now w) k v (price_links w) with
    | Some l => (Ok tt, set_price_links l (SetItem PriceCache k) w)
    | None => (Raise (ValueError (lit "value too large")), w)
    end.

(** [await update.message.reply_text(...)] *)
Definition reply_text (m : message) : M unit :=
  fun w =>
    (Ok tt,
     {| now := now w; symbol_links := symbol_links w; price_links := price_links w;
        net := net w; requests := requests w; accesses := accesses w;
        sent := sent w ++ [m] |}).

(** ** fetch_json *)

(** [RuntimeError(f"HTTP {resp.status}: {text[:200]}")] *)
Definition status_error (status : Z) (text : str) : exn :=
  RuntimeError (lit "HTTP " ++ digits status ++ lit ": " ++ take 200 text).

(** The exception that [fetch_json] raises on an answer that is no response
    or a response with a status other than 200. *)
Definition failure {A} (o : http A) : option exn :=
  match o with
  | NoResponse what => Some (ClientError what)
  | Response status text _ =>
      if negb (status =? 200) then Some (status_error status text) else None
  end.

(**

    One GET with the fixed headers and the 12-second timeout.  The request
    is recorded, the clock moves by the time the answer took, and the
    answer decides the outcome. *)
Definition fetch_json {A} (endpoint : remote -> nat -> params -> answer A)
    (url : str) (ps : params) : M A :=
  fun w =>
    let a := endpoint (net w) (length (requests w)) ps in
    let w' := {| now := now w + Z.of_N (elapsed a);
                 symbol_links := symbol_links w; price_links := price_links w;
                 net := net w; requests := requests w ++ [(url, ps)];
                 accesses := accesses w; sent := sent w |} in
    match outcome a with
    | NoResponse what => (Raise (ClientError what), w')
    | Response status text json =>
        if negb (status =? 200) then
          (Raise (status_error status text), w')
        else
          match json with
          | Some v => (Ok v, w')
          | None => (Raise JSONDecodeError, w')
          end
    end.

(** ** symbol_to_id *)

(** [d.get(k, dflt)] *)
Definition dict_get {V} (d : gmap str V) (k : str) (dflt : V) : V :=
  default dflt (d !! k).

(** The sort key [(len(c.get("name","")), c.get("id",""))] and the order
    of such tuples. *)
Definition sort_key (c : coin) : nat * str :=
  (length (dict_get c (lit "name") []), dict_get c (lit "id") []).

Definition key_leb (a b : nat * str) : bool :=
  match Nat.compare (fst a) (fst b) with
  | Lt => true
  | Gt => false
  | Eq => str_leb (snd a) (snd b)
  end.

Definition coin_leb (c1 c2 : coin) : bool := key_leb (sort_key c1) (sort_key c2).

(** The candidates of a remote lookup, in the specification's words: the
    records whose normalized symbol is the key or, when there is none, the
    records whose normalized name is the key. *)
Definition symbol_matches (key : str) (coins : list coin) : list coin :=
  List.filter (fun c => bool_decide (nrm (dict_get c (lit "symbol") []) = key)) coins.

Definition name_matches (key : str) (coins : list coin) : list coin :=
  List.filter (fun c => bool_decide (nrm (dict_get c (lit "name") []) = key)) coins.

Definition candidates (key : str) (coins : list coin) : list coin :=
  match symbol_matches key coins with
  | [] => name_matches key coins
  | _ => symbol_matches key coins
  end.

(** [c] ranks no later than [c']: a shorter name, or a name of the same
    length and an id that is not lexicographically greater. *)
Definition ranks_le (c c' : coin) : Prop :=
  (length (dict_get c (lit "name") []) < length (dict_get c' (lit "name") []))%nat \/
  (length (dict_get c (lit "name") []) = length (dict_get c' (lit "name") []) /\
   str_le (dict_get c (lit "id") []) (dict_get c' (lit "id") [])).

(** [c["id"]] as the resolver's result. *)
Definition id_of (c : coin) : result (option str) :=
  match c !! lit "id" with
  | Some id => Ok (Some id)
  | None => Raise (KeyError (lit "id"))
  end.

Definition symbol_to_id (symbol : str) : M (option str) :=
  let key := nrm symbol in
  match key with
  | [] => ret None
  | _ =>
    match COMMON_IDS !! key with
    | Some id => ret (Some id)
    | None =>
      hit <- symbol_cache_contains key ;;
      if hit : bool then symbol_cache_getitem key
      else
        coins <- fetch_json coins_list (COINGECKO_API ++ lit "/coins/list")
                   [(lit "include_platform", lit "false")] ;;
        let matches :=
          List.filter (fun c => bool_decide (nrm (dict_get c (lit "symbol") []) = key)) coins in
        let matches :=
          match matches with
          | [] => List.filter (fun c => bool_decide (nrm (dict_get c (lit "name") []) = key)) coins
          | _ => matches
          end in
        chosen <- match sort_by coin_leb matches with
                  | [] => ret None
                  | c :: _ =>
                      match c !! lit "id" with
                      | Some id => ret (Some id)
                      | None => raise (KeyError (lit "id"))
                      end
                  end ;;
        symbol_cache_setitem key chosen ;;;
        ret chosen
    end
  end.

(** ** get_prices *)

Definition cache_key (ids vs : list str) : str :=
  join (lit ",") (sorted ids) ++ lit "|" ++ join (lit ",") (sorted vs).

Definition get_prices (ids vs : list str) : M prices :=
  let cache_key := cache_key ids vs in
  hit <- price_cache_contains cache_key ;;
  if hit : bool then price_cache_getitem cache_key
  else
    data <- fetch_json simple_price (COINGECKO_API ++ lit "/simple/price")
              [ (lit "ids", join (lit ",") ids);
                (lit "vs_currencies", join (lit ",") vs);
                (lit "precision", lit "full") ] ;;
    price_cache_setitem cache_key data ;;;
    ret data.

(** ** handle_message

    The handler after the trigger pattern has matched: [amt] is
    [float(m.group(1))], [group2] and [group3] are the two ticker groups. *)

(** [prices.get(id, {}).get(currency)] *)
Definition price_of (p : prices) (id currency : str) : option float :=
  dict_get p id ∅ !! currency.

(** [not p] for an optional number *)
Definition falsy (p : option float) : bool :=
  match p with
  | None => true
  | Some x => (x =? 0)%float
  end.

(** [p == 0] *)
Definition is_zero_price (p : option float) : bool :=
  match p with
  | None => false
  | Some x => (x =? 0)%float
  end.

(** [float(p)] *)
Definition py_float (p : option float) : M float :=
  match p with
  | Some x => ret x
  | None => raise TypeError
  end.

(** [a / b] on floats *)
Definition truediv (a b : float) : M float :=
  if (b =? 0)%float then raise ZeroDivisionError else ret (a / b)%float.

Definition handle_message (amt : float) (group2 group3 : str) : M unit :=
  let base := nrm group2 in
  let quote := nrm group3 in
  let quote_is_fiat := bool_decide (quote ∈ FIAT_WHITELIST) in
  base_id <- symbol_to_id base ;;
  match base_id with
  | None | Some [] => reply_text (UnknownBase group2)
  | Some base_id =>
    if quote_is_fiat then
      prices <- get_prices [base_id] [quote] ;;
      match price_of prices base_id quote with
      | None => reply_text PriceUnavailable
      | Some p =>
          let total := (amt * p)%float in
          reply_text (Converted amt base total quote p)
      end
    else
      quote_id <- symbol_to_id quote ;;
      match quote_id with
      | None | Some [] => reply_text (UnknownQuote group3)
      | Some quote_id =>
        prices <- get_prices [base_id; quote_id] [lit "usd"] ;;
        let p_base := price_of prices base_id (lit "usd") in
        let p_quote := price_of prices quote_id (lit "usd") in
        if falsy p_base || falsy p_quote || is_zero_price p_quote then
          reply_text PriceUnavailable
        else
          b <- py_float p_base ;;
          q <- py_float p_quote ;;
          rate <- truediv b q ;;
          let total := (amt * rate)%float in
          reply_text (Converted amt base total quote rate)
      end
  end.

(** The text of a reply; [repr] is Python's [str] of a float. *)
Definition message_text (repr : float -> str) (m : message) : str :=
  match m with
  | UnknownBase raw => lit "Unknown base asset: *" ++ raw ++ lit "*"
  | UnknownQuote raw => lit "Unknown quote asset: *" ++ raw ++ lit "*"
  | PriceUnavailable => lit "Price unavailable right now."
  | Converted amt base total quote rate =>
      lit "`" ++ repr amt ++ lit "` " ++ upper base ++ [32; 8776; 32; 96]%N
      ++ fmt total quote ++ lit "` " ++ upper quote ++ [32; 32; 10]%N
      ++ lit "(1 " ++ upper base ++ lit " = `" ++ fmt rate quote ++ lit "` "
      ++ upper quote ++ lit ")"
  end.

(** ** Runs of the handler up to the price fetch *)

(** From world [w] the handler takes the cross-asset branch: the quote is
    not a fiat code, both tickers resolve, to [base_id] and [quote_id], and
    the price fetch returns the table [P], leaving world [w']. *)
Definition cross_fetch (group2 group3 : str) (w : world)
    (base_id quote_id : str) (P : prices) (w' : world) : Prop :=
  (nrm group3 ∉ FIAT_WHITELIST) /\
  exists w1 w2,
    symbol_to_id (nrm group2) w = (Ok (Some base_id), w1) /\ base_id <> [] /\
    symbol_to_id (nrm group3) w1 = (Ok (Some quote_id), w2) /\ quote_id <> [] /\
    get_prices [base_id; quote_id] [lit "usd"] w2 = (Ok P, w').

(** From world [w] the handler takes the fiat branch: the quote is a fiat
    code, the base resolves to [base_id], and the price fetch returns [P],
    leaving world [w']. *)
Definition fiat_fetch (group2 group3 : str) (w : world)
    (base_id : str) (P : prices) (w' : world) : Prop :=
  (nrm group3 ∈ FIAT_WHITELIST) /\
  exists w1,
    symbol_to_id (nrm group2) w = (Ok (Some base_id), w1) /\ base_id <> [] /\
    get_prices [base_id] [nrm group3] w1 = (Ok P, w').

(** [m] never raises [e]. *)
Definition never_raises {A} (e : exn) (m : M A) : Prop :=
  forall w, fst (m w) <> Raise e.

(** ** Sample worlds *)

Definition mk_coin (id symbol name : string) : coin :=
  list_to_map [(lit "id", lit id); (lit "symbol", lit symbol); (lit "name", lit name)].

Definition usd_table (l : list (string * float)) : prices :=
  list_to_map (map (fun p => (lit (fst p), {[ lit "usd" := snd p ]})) l).

(** A remote that gives the same two answers to every request. *)
Definition steady (c : http (list coin)) (p : http prices) : remote :=
  {| coins_list := fun _ _ => {| elapsed := 250000000; outcome := c |};
     simple_price := fun _ _ => {| elapsed := 100000000; outcome := p |} |}.

(** The world at start-up: empty caches, nothing requested or sent. *)
Definition startup (r : remote) : world :=
  {| now := 0; symbol_links := []; price_links := []; net := r;
     requests := []; accesses := []; sent := [] |}.

Definition pricing (P : prices) : world :=
  startup (steady (Response 200 [] (Some [])) (Response 200 [] (Some P))).

(** The world after the handler's price fetch for [ids] against [vs]. *)
Definition fetched (ids vs : list str) (w : world) : world :=
  snd (get_prices ids vs w).

Definition eth_sol : prices := usd_table [("ethereum", 3000%float); ("solana", 150%float)]%string.
Definition eth_free : prices := usd_table [("ethereum", 0%float); ("solana", 150%float)]%string.
Definition sol_free : prices := usd_table [("ethereum", 3000%float); ("solana", 0%float)]%string.
Definition btc_free : prices := usd_table [("bitcoin", 0%float)]%string.

(** An asset list with three records of symbol "pepe" and one of name
    "pepe", and two remotes that fail. *)
Definition pepes : list coin :=
  [ mk_coin "pepe-2" "pepe" "Pepe Two"; mk_coin "pepx" "PEPE" "Pepx";
    mk_coin "pepe" "pepe" "Pepe"; mk_coin "other" "oth" "pepe" ].

Definition listing : world :=
  startup (steady (Response 200 [] (Some pepes)) (Response 200 [] (Some eth_sol))).

Definition overloaded : world :=
  startup (steady (Response 503 (lit "busy") None) (Response 429 (lit "slow down") None)).

Definition offline : world :=
  startup (steady (NoResponse (lit "TimeoutError")) (NoResponse (lit "TimeoutError"))).

(** ** Further notions *)

(** A string over the alphabet [[a-z0-9]]. *)
Definition az09 (s : str) : Prop := Forall (fun c => is_az09 c = true) s.

(** Both caches are within their [maxsize]. *)
Definition bounded (w : world) : Prop :=
  Z.of_nat (length (symbol_links w)) <= maxsize symbol_cache /\
  Z.of_nat (length (price_links w)) <= maxsize price_cache.

(** [m] leaves every world related by [I] to the one it started from. *)
Definition preserves {A} (I : world -> world -> Prop) (m : M A) : Prop :=
  forall w, I w (snd (m w)).

(** [m] issues at most [n] requests, and only adds to the log. *)
Definition asks {A} (n : nat) (m : M A) : Prop :=
  forall w, exists extra,
    requests (snd (m w)) = requests w ++ extra /\ (length extra <= n)%nat.


(** The request of a remote lookup. *)
Definition coins_request : str * params :=
  (COINGECKO_API ++ lit "/coins/list", [(lit "include_platform", lit "false")]).

Definition btc_usd : prices := usd_table [("bitcoin", 65000%float)]%string.

Definition btc_old : prices := usd_table [("bitcoin", 64000%float)]%string.

(** A world whose price cache holds a bitcoin price that has expired. *)
Definition stale_prices : world :=
  {| now := 100 * second; symbol_links := [];
     price_links := [(cache_key [lit "bitcoin"] [lit "usd"], (btc_old, 60 * second))];
     net := net (pricing btc_usd);
     requests := []; accesses := []; sent := [] |}.

(** A world whose symbol cache holds "pepe" with an expiry that has passed. *)
Definition stale : world :=
  {| now := 50000 * second;
     symbol_links := [(lit "pepe", (Some (lit "pepe-old"), 43200 * second))];
     price_links := []; net := net listing;
     requests := []; accesses := []; sent := [] |}.

(** ** Binary64 comparisons and products *)

Lemma Prim2SF_zero : Prim2SF 0%float = S754_zero false.
Proof. reflexivity. Qed.

Lemma Prim2SF_one : Prim2SF 1%float = S754_finite false 4503599627370496 (-52).
Proof. reflexivity. Qed.

Lemma Prim2SF_cent : Prim2SF 0.01%float = S754_finite false 5764607523034235 (-59).
Proof. reflexivity. Qed.

Lemma SFcompare_pos_antisym (m1 m2 : positive) (e1 e2 : Z) :
  SFcompare (S754_finite false m1 e1) (S754_finite false m2 e2) = Some Lt ->
  SFcompare (S754_finite false m2 e2) (S754_finite false m1 e1) = Some Gt.
Proof.
  unfold SFcompare.
  change (PosDef.Pos.compare_cont Eq m1 m2) with (Pos.compare m1 m2).
  change (PosDef.Pos.compare_cont Eq m2 m1) with (Pos.compare m2 m1).
  rewrite (Z.compare_antisym e1 e2), (Pos.compare_antisym m1 m2).
  destruct (e1 ?= e2); cbn [CompOpp]; try congruence.
  destruct (m1 ?= m2)%positive; cbn [CompOpp]; congruence.
Qed.

Lemma SFcompare_pos_Lt_trans (m1 m2 m3 : positive) (e1 e2 e3 : Z) :
  SFcompare (S754_finite false m1 e1) (S754_finite false m2 e2) = Some Lt ->
  SFcompare (S754_finite false m2 e2) (S754_finite false m3 e3) = Some Lt ->
  SFcompare (S754_finite false m1 e1) (S754_finite false m3 e3) = Some Lt.
Proof.
  unfold SFcompare.
  change (PosDef.Pos.compare_cont Eq m1 m2) with (Pos.compare m1 m2).
  change (PosDef.Pos.compare_cont Eq m2 m3) with (Pos.compare m2 m3).
  change (PosDef.Pos.compare_cont Eq m1 m3) with (Pos.compare m1 m3).
  destruct (Z.compare_spec e1 e2), (Z.compare_spec e2 e3); try congruence; subst.
  - rewrite Z.compare_refl. intros H1 H2. f_equal.
    injection H1 as H1; injection H2 as H2.
    apply Pos.compare_lt_iff. apply Pos.compare_lt_iff in H1. apply Pos.compare_lt_iff in H2.
    eapply Pos.lt_trans; eauto.
  - intros _ _; rewrite (proj2 (Z.compare_lt_iff _ _)) by lia; reflexivity.
  - intros _ _; rewrite (proj2 (Z.compare_lt_iff _ _)) by lia; reflexivity.
  - intros _ _; rewrite (proj2 (Z.compare_lt_iff _ _)) by lia; reflexivity.
Qed.

(** [x < c] excludes [c <= x], for a positive constant [c]. *)
Lemma ltb_not_leb (x c : float) (m : positive) (e : Z) :
  Prim2SF c = S754_finite false m e ->
  (x <? c)%float = true -> (c <=? x)%float = false.
Proof.
  intros Hc. rewrite FloatAxioms.ltb_spec, FloatAxioms.leb_spec, Hc.
  unfold SFltb, SFleb.
  destruct (Prim2SF x) as [s| s | |s mx ex] eqn:Hx.
  1-3: (try destruct s); cbn; congruence.
  destruct s; [ cbn; congruence |].
  destruct (SFcompare (S754_finite false mx ex) (S754_finite false m e)) as [[]|] eqn:E;
    try discriminate.
  rewrite (SFcompare_pos_antisym _ _ _ _ E). reflexivity.
Qed.

(** [x < 0.01] excludes [1 <= x]. *)
Lemma ltb_cent_not_leb_one (x : float) :
  (x <? 0.01)%float = true -> (1 <=? x)%float = false.
Proof.
  rewrite FloatAxioms.ltb_spec, FloatAxioms.leb_spec, Prim2SF_one, Prim2SF_cent.
  unfold SFltb, SFleb.
  destruct (Prim2SF x) as [s| s | |s mx ex] eqn:Hx.
  1-3: (try destruct s); cbn; congruence.
  destruct s; [ cbn; congruence |].
  destruct (SFcompare (S754_finite false mx ex) _) as [[]|] eqn:E; try discriminate.
  intros _.
  assert (H : SFcompare (S754_finite false 5764607523034235 (-59))
                        (S754_finite false 4503599627370496 (-52)) = Some Lt) by reflexivity.
  pose proof (SFcompare_pos_Lt_trans _ _ _ _ _ _ E H) as H1.
  rewrite (SFcompare_pos_antisym _ _ _ _ H1). reflexivity.
Qed.

Lemma eqb_zero_inv (x : float) :
  (x =? 0)%float = true -> exists s, Prim2SF x = S754_zero s.
Proof.
  rewrite FloatAxioms.eqb_spec, Prim2SF_zero. unfold SFeqb, SFcompare.
  destruct (Prim2SF x) as [s| s | |s m e]; try discriminate; eauto.
  all: destruct s; discriminate.
Qed.

Lemma is_finite_inv (x : float) :
  is_finite x = true ->
  (exists s, Prim2SF x = S754_zero s) \/ (exists s m e, Prim2SF x = S754_finite s m e).
Proof.
  unfold is_finite, is_nan, is_infinity.
  rewrite !FloatAxioms.eqb_spec, abs_spec.
  change (Prim2SF infinity) with (S754_infinity false).
  destruct (Prim2SF x) as [s| s | |s m e]; cbn; eauto 6.
  - destruct s; discriminate.
  - discriminate.
Qed.

(** A finite number times zero is zero. *)
Lemma mul_zero_of_finite (a p : float) :
  is_finite a = true -> (p =? 0)%float = true -> (a * p =? 0)%float = true.
Proof.
  intros Ha Hp. apply is_finite_inv in Ha. apply eqb_zero_inv in Hp as [s Hp].
  rewrite FloatAxioms.eqb_spec, mul_spec, Hp, Prim2SF_zero. unfold SF64mul, SFmul.
  destruct Ha as [[s' ->] | (s' & m & e & ->)]; reflexivity.
Qed.

(** ** The formatter *)

(** C8. With a fiat quote, [fmt] renders a value of at least 1 with two
    decimals and thousands grouping, a value from 0.01 up to 1 with four
    decimals (and grouping), and a value below 0.01 with eight decimals and
    no grouping; 1 is rendered "1.00", 0.999999 in the four-decimal form and
    0.00000001 in the eight-decimal form. *)
Theorem fmt_fiat_boundaries (x : float) (quote : str) :
  nrm quote ∈ FIAT_WHITELIST ->
  ((1 <=? x)%float = true -> fmt x quote = format_f true 2 x) /\
  ((0.01 <=? x)%float = true -> (x <? 1)%float = true ->
     fmt x quote = format_f true 4 x) /\
  ((x <? 0.01)%float = true -> fmt x quote = format_f false 8 x) /\
  fmt 1 quote = lit "1.00" /\
  fmt 0.999999 quote = lit "1.0000" /\
  fmt 0.00000001 quote = lit "0.00000001".
Proof.
  intros Hq. unfold fmt. rewrite (bool_decide_eq_true_2 _ Hq).
  split_and!.
  - intros ->. reflexivity.
  - intros H1 H2. rewrite (ltb_not_leb x 1 _ _ Prim2SF_one H2), H1. reflexivity.
  - intros H. rewrite (ltb_cent_not_leb_one x H), (ltb_not_leb x 0.01 _ _ Prim2SF_cent H).
    reflexivity.
  - vm_compute. reflexivity.
  - vm_compute. reflexivity.
  - vm_compute. reflexivity.
Qed.

Lemma fmt_fiat_boundaries_witness :
  (nrm (lit "USD") ∈ FIAT_WHITELIST) /\
  fmt 130000 (lit "USD") = lit "130,000.00" /\
  fmt 0.5 (lit "USD") = lit "0.5000" /\
  fmt 0.002 (lit "USD") = lit "0.00200000".
Proof.
  assert (Hq : nrm (lit "USD") ∈ FIAT_WHITELIST) by (vm_compute; reflexivity).
  split; [exact Hq|].
  split; [| split].
  - exact (proj1 (fmt_fiat_boundaries 130000 (lit "USD") Hq) eq_refl).
  - exact (proj1 (proj2 (fmt_fiat_boundaries 0.5 (lit "USD") Hq)) eq_refl eq_refl).
  - exact (proj1 (proj2 (proj2 (fmt_fiat_boundaries 0.002 (lit "USD") Hq))) eq_refl).
Defined.

(** C9. With a crypto quote, [fmt] renders a value of at least 1 to six
    decimals and a value below 1 to ten decimals, then strips trailing
    zeros and a trailing decimal point; 1.5 is rendered "1.5" and 0.1 is
    rendered "0.1". *)
Theorem fmt_crypto_trims (x : float) (quote : str) :
  nrm quote ∉ FIAT_WHITELIST ->
  ((1 <=? x)%float = true ->
     fmt x quote = rstrip (lit ".") (rstrip (lit "0") (format_f false 6 x))) /\
  ((x <? 1)%float = true ->
     fmt x quote = rstrip (lit ".") (rstrip (lit "0") (format_f false 10 x))) /\
  fmt 1.5 quote = lit "1.5" /\
  fmt 0.1 quote = lit "0.1".
Proof.
  intros Hq. unfold fmt. rewrite (bool_decide_eq_false_2 _ Hq).
  split_and!.
  - intros ->. reflexivity.
  - intros H. rewrite (ltb_not_leb x 1 _ _ Prim2SF_one H). reflexivity.
  - vm_compute. reflexivity.
  - vm_compute. reflexivity.
Qed.

Lemma fmt_crypto_trims_witness :
  (nrm (lit "sol") ∉ FIAT_WHITELIST) /\
  fmt 200 (lit "sol") = lit "200" /\
  fmt 0.00012 (lit "sol") = lit "0.00012".
Proof.
  assert (Hq : nrm (lit "sol") ∉ FIAT_WHITELIST) by (vm_compute; discriminate).
  split; [exact Hq|]. split.
  - exact (proj1 (fmt_crypto_trims 200 (lit "sol") Hq) eq_refl).
  - exact (proj1 (proj2 (fmt_crypto_trims 0.00012 (lit "sol") Hq)) eq_refl).
Defined.

(** ** The conversion logic *)

(** What the handler does with the price table in the cross-asset branch. *)
Lemma handle_message_cross amt group2 group3 w base_id quote_id P w' :
  cross_fetch group2 group3 w base_id quote_id P w' ->
  handle_message amt group2 group3 w =
  (let p_base := price_of P base_id (lit "usd") in
   let p_quote := price_of P quote_id (lit "usd") in
   if falsy p_base || falsy p_quote || is_zero_price p_quote then
     reply_text PriceUnavailable
   else
     b <- py_float p_base ;;
     q <- py_float p_quote ;;
     rate <- truediv b q ;;
     reply_text (Converted amt (nrm group2) (amt * rate)%float (nrm group3) rate)) w'.
Proof.
  intros (Hq & w1 & w2 & Hb & Hbid & Hs & Hqid & Hp).
  unfold handle_message. cbv zeta.
  rewrite (bool_decide_eq_false_2 _ Hq).
  unfold bind at 1. rewrite Hb.
  destruct base_id as [|c base_id]; [congruence|].
  unfold bind at 1. rewrite Hs.
  destruct quote_id as [|d quote_id]; [congruence|].
  unfold bind at 1. rewrite Hp. reflexivity.
Qed.

(** What the handler does with the price table in the fiat branch. *)
Lemma handle_message_fiat amt group2 group3 w base_id P w' :
  fiat_fetch group2 group3 w base_id P w' ->
  handle_message amt group2 group3 w =
  match price_of P base_id (nrm group3) with
  | None => reply_text PriceUnavailable w'
  | Some p => reply_text (Converted amt (nrm group2) (amt * p)%float (nrm group3) p) w'
  end.
Proof.
  intros (Hq & w1 & Hb & Hbid & Hp).
  unfold handle_message. cbv zeta.
  rewrite (bool_decide_eq_true_2 _ Hq).
  unfold bind at 1. rewrite Hb.
  destruct base_id as [|c base_id]; [congruence|].
  unfold bind at 1. rewrite Hp.
  destruct (price_of P (c :: base_id) (nrm group3)); reflexivity.
Qed.

(** C1, as amended. In the cross-asset branch, when the fetched table has a
    USD price for the base id and for the quote id and both prices are
    nonzero, the conversion succeeds with rate = base price / quote price
    and converted amount = amount * rate. *)
Theorem cross_asset_conversion amt group2 group3 w base_id quote_id P w' pb pq :
  cross_fetch group2 group3 w base_id quote_id P w' ->
  price_of P base_id (lit "usd") = Some pb ->
  price_of P quote_id (lit "usd") = Some pq ->
  (pb =? 0)%float = false ->
  (pq =? 0)%float = false ->
  handle_message amt group2 group3 w =
  reply_text (Converted amt (nrm group2) (amt * (pb / pq))%float (nrm group3) (pb / pq)%float) w'.
Proof.
  intros Hrun Hb Hq Hb0 Hq0.
  rewrite (handle_message_cross _ _ _ _ _ _ _ _ Hrun). cbv zeta.
  rewrite Hb, Hq. cbn [falsy is_zero_price py_float]. rewrite Hb0, Hq0. cbn [orb].
  unfold bind, ret, truediv. rewrite Hq0. reflexivity.
Qed.

(** The cross-asset run of "eth" against "sol" in a start-up world. *)
Lemma eth_sol_run (P : prices) :
  cross_fetch (lit "eth") (lit "sol") (pricing P) (lit "ethereum") (lit "solana")
    P (fetched [lit "ethereum"; lit "solana"] [lit "usd"] (pricing P)).
Proof.
  split; [vm_compute; discriminate|].
  exists (pricing P), (pricing P).
  split_and!; try discriminate; reflexivity.
Qed.

Lemma cross_asset_conversion_witness :
  cross_fetch (lit "eth") (lit "sol") (pricing eth_sol) (lit "ethereum") (lit "solana")
    eth_sol (fetched [lit "ethereum"; lit "solana"] [lit "usd"] (pricing eth_sol)) /\
  handle_message 10 (lit "eth") (lit "sol") (pricing eth_sol) =
  reply_text (Converted 10 (lit "eth") 200 (lit "sol") 20)
    (fetched [lit "ethereum"; lit "solana"] [lit "usd"] (pricing eth_sol)).
Proof.
  assert (Hrun : cross_fetch (lit "eth") (lit "sol") (pricing eth_sol)
                   (lit "ethereum") (lit "solana") eth_sol
                   (fetched [lit "ethereum"; lit "solana"] [lit "usd"] (pricing eth_sol))).
  { split; [vm_compute; discriminate|].
    exists (pricing eth_sol), (pricing eth_sol).
    split_and!; try discriminate; reflexivity. }
  split; [exact Hrun|].
  exact (cross_asset_conversion 10 (lit "eth") (lit "sol") (pricing eth_sol)
           (lit "ethereum") (lit "solana") eth_sol _ 3000 150
           Hrun eq_refl eq_refl eq_refl eq_refl).
Defined.

(** C1, as stated, fails when the base asset's USD price is zero: both
    prices are present and the quote's is nonzero, yet the reply is
    "Price unavailable" and not a conversion at rate 0 / 150. *)
Lemma cross_asset_zero_base_price :
  cross_fetch (lit "eth") (lit "sol") (pricing eth_free) (lit "ethereum") (lit "solana")
    eth_free (fetched [lit "ethereum"; lit "solana"] [lit "usd"] (pricing eth_free)) /\
  price_of eth_free (lit "ethereum") (lit "usd") = Some 0%float /\
  price_of eth_free (lit "solana") (lit "usd") = Some 150%float /\
  (150 =? 0)%float = false /\
  handle_message 10 (lit "eth") (lit "sol") (pricing eth_free) =
    reply_text PriceUnavailable (fetched [lit "ethereum"; lit "solana"] [lit "usd"] (pricing eth_free)) /\
  handle_message 10 (lit "eth") (lit "sol") (pricing eth_free) <>
    reply_text (Converted 10 (lit "eth") (10 * (0 / 150))%float (lit "sol") (0 / 150)%float)
      (fetched [lit "ethereum"; lit "solana"] [lit "usd"] (pricing eth_free)).
Proof.
  split_and!; try reflexivity.
  - apply eth_sol_run.
  - intros H. apply (f_equal (fun r => sent (snd r))) in H. vm_compute in H. discriminate.
Qed.

(** *** No division by zero *)

Lemma never_raises_ret {A} e (a : A) : never_raises e (ret a).
Proof. intros w. discriminate. Qed.

Lemma never_raises_raise {A} e e' : e' <> e -> never_raises e (raise (A := A) e').
Proof. intros H w. cbn. congruence. Qed.

Lemma never_raises_bind {A B} e (m : M A) (k : A -> M B) :
  never_raises e m -> (forall a, never_raises e (k a)) -> never_raises e (bind m k).
Proof.
  intros Hm Hk w. unfold bind. specialize (Hm w).
  destruct (m w) as [[a|e'] w1]; cbn in *.
  - apply Hk.
  - intros [= ->]. apply Hm. reflexivity.
Qed.

Lemma never_raises_reply e m : never_raises e (reply_text m).
Proof. intros w. discriminate. Qed.

Lemma fetch_json_no_zdiv {A} (ep : remote -> nat -> params -> answer A) url ps :
  never_raises ZeroDivisionError (fetch_json ep url ps).
Proof.
  intros w. unfold fetch_json.
  destruct (outcome _) as [what|status text [v|]]; [|destruct (negb _)..]; discriminate.
Qed.

Lemma symbol_to_id_no_zdiv symbol : never_raises ZeroDivisionError (symbol_to_id symbol).
Proof.
  unfold symbol_to_id. cbv zeta.
  destruct (nrm symbol) as [|c key]; [apply never_raises_ret|].
  destruct (COMMON_IDS !! (c :: key)); [apply never_raises_ret|].
  apply never_raises_bind; [intros w; discriminate|].
  intros [|].
  - intros w. unfold symbol_cache_getitem.
    destruct (getitem _ _ _) as [[v|] l]; discriminate.
  - apply never_raises_bind; [apply fetch_json_no_zdiv|]. intros coins.
    apply never_raises_bind.
    + destruct (sort_by _ _) as [|c0 rest]; [apply never_raises_ret|].
      destruct (c0 !! lit "id"); [apply never_raises_ret|].
      apply never_raises_raise. discriminate.
    + intros chosen. apply never_raises_bind; [|intros; apply never_raises_ret].
      intros w. unfold symbol_cache_setitem.
      destruct (setitem _ _ _ _ _); discriminate.
Qed.

Lemma get_prices_no_zdiv ids vs : never_raises ZeroDivisionError (get_prices ids vs).
Proof.
  unfold get_prices. cbv zeta.
  apply never_raises_bind; [intros w; discriminate|].
  intros [|].
  - intros w. unfold price_cache_getitem.
    destruct (getitem _ _ _) as [[v|] l]; discriminate.
  - apply never_raises_bind; [apply fetch_json_no_zdiv|]. intros data.
    apply never_raises_bind; [|intros; apply never_raises_ret].
    intros w. unfold price_cache_setitem.
    destruct (setitem _ _ _ _ _); discriminate.
Qed.

Lemma handle_message_no_zdiv amt group2 group3 :
  never_raises ZeroDivisionError (handle_message amt group2 group3).
Proof.
  unfold handle_message. cbv zeta.
  apply never_raises_bind; [apply symbol_to_id_no_zdiv|].
  intros [[|c base_id]|]; [apply never_raises_reply| |apply never_raises_reply].
  destruct (bool_decide _).
  - apply never_raises_bind; [apply get_prices_no_zdiv|]. intros P.
    destruct (price_of _ _ _); apply never_raises_reply.
  - apply never_raises_bind; [apply symbol_to_id_no_zdiv|].
    intros [[|d quote_id]|]; [apply never_raises_reply| |apply never_raises_reply].
    apply never_raises_bind; [apply get_prices_no_zdiv|]. intros P.
    destruct (price_of P (c :: base_id) _) as [b|]; [|apply never_raises_reply].
    destruct (price_of P (d :: quote_id) _) as [q|];
      [|cbn; rewrite orb_true_r; apply never_raises_reply].
    cbn [falsy is_zero_price py_float].
    destruct (b =? 0)%float; [apply never_raises_reply|].
    destruct (q =? 0)%float eqn:Hq; [apply never_raises_reply|].
    cbn [orb]. intros w. unfold bind, truediv, ret. rewrite Hq. discriminate.
Qed.

(** C2. In the cross-asset branch, when the fetched table gives the quote
    asset a USD price of exactly zero, the handler replies "Price
    unavailable"; and no run of the handler raises [ZeroDivisionError]: the
    division is never reached with a zero divisor. *)
Theorem zero_quote_price_guard amt group2 group3 w base_id quote_id P w' pq :
  cross_fetch group2 group3 w base_id quote_id P w' ->
  price_of P quote_id (lit "usd") = Some pq ->
  (pq =? 0)%float = true ->
  handle_message amt group2 group3 w = reply_text PriceUnavailable w' /\
  (forall amt' g2 g3 v, fst (handle_message amt' g2 g3 v) <> Raise ZeroDivisionError).
Proof.
  intros Hrun Hq Hq0. split.
  - rewrite (handle_message_cross _ _ _ _ _ _ _ _ Hrun). cbv zeta.
    rewrite Hq. cbn [falsy is_zero_price]. rewrite Hq0.
    rewrite orb_true_r. reflexivity.
  - intros amt' g2 g3 v. apply handle_message_no_zdiv.
Qed.

Lemma zero_quote_price_guard_witness :
  cross_fetch (lit "eth") (lit "sol") (pricing sol_free) (lit "ethereum") (lit "solana")
    sol_free (fetched [lit "ethereum"; lit "solana"] [lit "usd"] (pricing sol_free)) /\
  price_of sol_free (lit "solana") (lit "usd") = Some 0%float /\
  handle_message 10 (lit "eth") (lit "sol") (pricing sol_free) =
  reply_text PriceUnavailable
    (fetched [lit "ethereum"; lit "solana"] [lit "usd"] (pricing sol_free)).
Proof.
  assert (Hrun : cross_fetch (lit "eth") (lit "sol") (pricing sol_free)
                   (lit "ethereum") (lit "solana") sol_free
                   (fetched [lit "ethereum"; lit "solana"] [lit "usd"] (pricing sol_free))).
  { split; [vm_compute; discriminate|].
    exists (pricing sol_free), (pricing sol_free).
    split_and!; try discriminate; reflexivity. }
  split_and!; [exact Hrun | reflexivity |].
  exact (proj1 (zero_quote_price_guard 10 (lit "eth") (lit "sol") (pricing sol_free)
                  (lit "ethereum") (lit "solana") sol_free _ 0 Hrun eq_refl eq_refl)).
Defined.

(** C10, as amended. In the fiat branch a price that is present and exactly
    zero is not "Price unavailable": the conversion succeeds with rate = the
    zero price and converted amount = amount * price, which is zero for
    every finite amount.  In the cross-asset branch a zero USD price of
    either asset gives "Price unavailable". *)
Theorem fiat_zero_price_converts amt group2 group3 w base_id P w' p :
  fiat_fetch group2 group3 w base_id P w' ->
  price_of P base_id (nrm group3) = Some p ->
  (p =? 0)%float = true ->
  handle_message amt group2 group3 w =
    reply_text (Converted amt (nrm group2) (amt * p)%float (nrm group3) p) w' /\
  (is_finite amt = true -> (amt * p =? 0)%float = true) /\
  (forall g2 g3 v bid qid Q v',
     cross_fetch g2 g3 v bid qid Q v' ->
     is_zero_price (price_of Q bid (lit "usd")) || is_zero_price (price_of Q qid (lit "usd")) = true ->
     handle_message amt g2 g3 v = reply_text PriceUnavailable v').
Proof.
  intros Hrun Hp Hp0. split_and!.
  - rewrite (handle_message_fiat _ _ _ _ _ _ _ Hrun), Hp. reflexivity.
  - intros Hfin. apply mul_zero_of_finite; assumption.
  - intros g2 g3 v bid qid Q v' Hcross Hz.
    rewrite (handle_message_cross _ _ _ _ _ _ _ _ Hcross). cbv zeta.
    destruct (price_of Q bid (lit "usd")) as [b|], (price_of Q qid (lit "usd")) as [q|];
      cbn [falsy is_zero_price orb] in *; try discriminate; try reflexivity.
    + destruct (b =? 0)%float; [reflexivity|].
      cbn [orb] in *. rewrite Hz. reflexivity.
    + rewrite orb_true_r. reflexivity.
Qed.

Lemma fiat_zero_price_converts_witness :
  fiat_fetch (lit "btc") (lit "usd") (pricing btc_free) (lit "bitcoin")
    btc_free (fetched [lit "bitcoin"] [lit "usd"] (pricing btc_free)) /\
  handle_message 2 (lit "btc") (lit "usd") (pricing btc_free) =
    reply_text (Converted 2 (lit "btc") 0 (lit "usd") 0)
      (fetched [lit "bitcoin"] [lit "usd"] (pricing btc_free)) /\
  handle_message 2 (lit "eth") (lit "sol") (pricing eth_free) =
    reply_text PriceUnavailable
      (fetched [lit "ethereum"; lit "solana"] [lit "usd"] (pricing eth_free)).
Proof.
  assert (Hrun : fiat_fetch (lit "btc") (lit "usd") (pricing btc_free) (lit "bitcoin")
                   btc_free (fetched [lit "bitcoin"] [lit "usd"] (pricing btc_free))).
  { split; [vm_compute; reflexivity|].
    exists (pricing btc_free). split_and!; try discriminate; reflexivity. }
  assert (Hcross : cross_fetch (lit "eth") (lit "sol") (pricing eth_free)
                     (lit "ethereum") (lit "solana") eth_free
                     (fetched [lit "ethereum"; lit "solana"] [lit "usd"] (pricing eth_free))).
  { split; [vm_compute; discriminate|].
    exists (pricing eth_free), (pricing eth_free).
    split_and!; try discriminate; reflexivity. }
  pose proof (fiat_zero_price_converts 2 (lit "btc") (lit "usd") (pricing btc_free)
                (lit "bitcoin") btc_free _ 0 Hrun eq_refl eq_refl) as (H1 & _ & H3).
  split_and!; [exact Hrun | exact H1 |].
  exact (H3 _ _ _ _ _ _ _ Hcross eq_refl).
Defined.

(** C10, as stated, fails for an amount that overflowed to infinity: the
    price is present and zero, the conversion succeeds, and the converted
    amount is NaN, not zero. *)
Lemma fiat_zero_price_infinite_amount :
  fiat_fetch (lit "btc") (lit "usd") (pricing btc_free) (lit "bitcoin")
    btc_free (fetched [lit "bitcoin"] [lit "usd"] (pricing btc_free)) /\
  price_of btc_free (lit "bitcoin") (lit "usd") = Some 0%float /\
  handle_message infinity (lit "btc") (lit "usd") (pricing btc_free) =
    reply_text (Converted infinity (lit "btc") nan (lit "usd") 0)
      (fetched [lit "bitcoin"] [lit "usd"] (pricing btc_free)) /\
  (nan =? 0)%float = false.
Proof.
  split_and!; try reflexivity.
  split; [vm_compute; reflexivity|].
  exists (pricing btc_free). split_and!; try discriminate; reflexivity.
Qed.

(** ** The symbol resolver *)

(** C5. A ticker whose normalized key is in the shortcut table resolves to
    the table's id in every world, whatever the caches hold and whatever the
    remote would answer, and leaves the world as it was: no request is
    issued and the symbol cache is neither read nor written. *)
Theorem shortcut_resolves_locally (symbol id : str) :
  COMMON_IDS !! nrm symbol = Some id ->
  forall w, symbol_to_id symbol w = (Ok (Some id), w).
Proof.
  intros H w. unfold symbol_to_id. cbv zeta.
  destruct (nrm symbol) as [|c key].
  - vm_compute in H. discriminate.
  - rewrite H. reflexivity.
Qed.

Lemma shortcut_resolves_locally_witness :
  COMMON_IDS !! nrm (lit "btc") = Some (lit "bitcoin") /\
  forall w, symbol_to_id (lit "btc") w = (Ok (Some (lit "bitcoin")), w).
Proof.
  split; [reflexivity|].
  exact (shortcut_resolves_locally (lit "btc") (lit "bitcoin") eq_refl).
Defined.

(** ** Order and sorting *)

Lemma str_cmp_refl (a : str) : str_cmp a a = Eq.
Proof.
  induction a as [|x a IH]; [reflexivity|].
  cbn. rewrite N.compare_refl. exact IH.
Qed.

Lemma str_cmp_antisym (a b : str) : str_cmp b a = CompOpp (str_cmp a b).
Proof.
  revert b. induction a as [|x a IH]; intros [|y b]; cbn; try reflexivity.
  rewrite (N.compare_antisym x y).
  destruct (x ?= y)%N; cbn; auto.
Qed.

Lemma str_cmp_eq (a b : str) : str_cmp a b = Eq -> a = b.
Proof.
  revert b. induction a as [|x a IH]; intros [|y b]; cbn; try congruence.
  destruct (N.compare_spec x y); try congruence.
  intros Hc. subst. f_equal. auto.
Qed.

Lemma str_cmp_lt_trans (a b c : str) :
  str_cmp a b = Lt -> str_cmp b c = Lt -> str_cmp a c = Lt.
Proof.
  revert b c. induction a as [|x a IH]; intros [|y b] [|z c]; cbn; try congruence.
  destruct (N.compare_spec x y), (N.compare_spec y z); subst; try congruence.
  - rewrite N.compare_refl. apply IH.
  - intros _ _. rewrite (proj2 (N.compare_lt_iff _ _)) by assumption. reflexivity.
  - intros _ _. rewrite (proj2 (N.compare_lt_iff _ _)) by assumption. reflexivity.
  - intros _ _. rewrite (proj2 (N.compare_lt_iff x z)) by lia. reflexivity.
Qed.

Lemma str_leb_le (a b : str) : str_leb a b = true <-> str_le a b.
Proof.
  unfold str_leb, str_le. destruct (str_cmp a b); split; congruence.
Qed.

#[local] Instance str_lem_total : Total str_lem.
Proof.
  intros a b. unfold str_lem, str_leb. rewrite (str_cmp_antisym a b).
  destruct (str_cmp a b); cbn; auto.
Qed.

#[local] Instance str_lem_antisym : AntiSymm (=) str_lem.
Proof.
  intros a b. unfold str_lem, str_leb. rewrite (str_cmp_antisym a b).
  destruct (str_cmp a b) eqn:E; cbn; try discriminate.
  intros _ _. apply str_cmp_eq. exact E.
Qed.

#[local] Instance str_lem_trans : Transitive str_lem.
Proof.
  intros a b c. unfold str_lem, str_leb.
  destruct (str_cmp a b) eqn:E1; try discriminate;
    destruct (str_cmp b c) eqn:E2; try discriminate; intros _ _.
  - apply str_cmp_eq in E1, E2. subst. rewrite str_cmp_refl. reflexivity.
  - apply str_cmp_eq in E1. subst. rewrite E2. reflexivity.
  - apply str_cmp_eq in E2. subst. rewrite E1. reflexivity.
  - rewrite (str_cmp_lt_trans _ _ _ E1 E2). reflexivity.
Qed.

Section SortFacts.
Context {A : Type} (leb : A -> A -> bool).
Let R : relation A := fun a b => leb a b = true.
Context (R_total : Total R) (R_trans : Transitive R).

Lemma insert_by_Permutation (x : A) (l : list A) : insert_by leb x l ≡ₚ x :: l.
Proof.
  induction l as [|y l IH]; cbn; [reflexivity|].
  destruct (leb x y); [reflexivity|].
  rewrite IH. apply Permutation_swap.
Qed.

Lemma sort_by_Permutation (l : list A) : sort_by leb l ≡ₚ l.
Proof.
  induction l as [|x l IH]; cbn; [reflexivity|].
  rewrite insert_by_Permutation, IH. reflexivity.
Qed.

Lemma insert_by_Sorted (x : A) (l : list A) :
  Sorted R l -> Sorted R (insert_by leb x l).
Proof.
  induction l as [|y l IH]; cbn; intros Hs.
  - repeat constructor.
  - destruct (leb x y) eqn:E.
    + constructor; [exact Hs|]. constructor. exact E.
    + inversion Hs as [|? ? Hl Hhd]; subst.
      constructor; [auto|].
      assert (Hyx : R y x) by (destruct (R_total x y) as [H|H]; [unfold R in H; congruence|exact H]).
      destruct l as [|z l]; cbn.
      * constructor. exact Hyx.
      * destruct (leb x z); constructor; [exact Hyx|].
        inversion Hhd; subst. assumption.
Qed.

Lemma sort_by_Sorted (l : list A) : Sorted R (sort_by leb l).
Proof.
  induction l as [|x l IH]; cbn; [constructor|].
  apply insert_by_Sorted. exact IH.
Qed.

(** The first element of the sorted list is one of the list's elements
    and is below every one of them. *)
Lemma sort_by_head (l : list A) (c : A) (rest : list A) :
  sort_by leb l = c :: rest ->
  c ∈ l /\ forall c', c' ∈ l -> leb c c' = true.
Proof.
  intros H.
  pose proof (sort_by_Permutation l) as Hp.
  pose proof (sort_by_Sorted l) as Hs.
  rewrite H in Hp, Hs.
  split.
  - rewrite <- Hp. left.
  - intros c' Hc'. rewrite <- Hp in Hc'.
    apply Sorted_StronglySorted in Hs; [|exact R_trans].
    apply StronglySorted_inv in Hs as [_ Hall].
    apply elem_of_cons in Hc' as [->|Hin].
    + destruct (R_total c c); assumption.
    + rewrite Forall_forall in Hall. apply Hall. exact Hin.
Qed.

Lemma sort_by_nil (l : list A) : sort_by leb l = [] -> l = [].
Proof.
  intros H. pose proof (sort_by_Permutation l) as Hp. rewrite H in Hp.
  symmetry in Hp. apply Permutation_nil_r in Hp. exact Hp.
Qed.
End SortFacts.

(** Sorting strings forgets the order of the input. *)
Lemma sorted_Permutation (l l' : list str) : l ≡ₚ l' -> sorted l = sorted l'.
Proof.
  intros Hp. unfold sorted.
  apply (Sorted_unique str_lem).
  - apply (sort_by_Sorted str_leb); apply _.
  - apply (sort_by_Sorted str_leb); apply _.
  - rewrite !sort_by_Permutation. exact Hp.
Qed.

(** ** The caches *)

Section LinksFacts.
Context {V : Type}.
Implicit Types (l : links V) (k : str) (v : V) (t e : Z).

Lemma find_stored k v e l : find k (remove k l ++ [(k, (v, e))]) = Some (v, e).
Proof.
  unfold find, remove.
  induction l as [|[k' x] l IH]; cbn.
  - rewrite bool_decide_eq_true_2 by reflexivity. reflexivity.
  - destruct (bool_decide (k' = k)) eqn:E; cbn; [exact IH|].
    rewrite E. exact IH.
Qed.

Lemma setitem_stored (c : TTLCache) t k v l l' :
  setitem c t k v l = Some l' -> find k l' = Some (v, t + ttl c).
Proof.
  unfold setitem. destruct (maxsize c <? 1); [discriminate|].
  intros [= <-]. apply find_stored.
Qed.

Lemma setitem_room (c : TTLCache) t k v l :
  1 <= maxsize c -> exists l', setitem c t k v l = Some l'.
Proof.
  intros H. unfold setitem.
  rewrite (proj2 (Z.ltb_ge _ _)) by exact H. eauto.
Qed.

Lemma contains_fresh t k v e l :
  find k l = Some (v, e) -> t < e -> contains t k l = true.
Proof.
  intros Hf Ht. unfold contains. rewrite Hf. apply Z.ltb_lt. exact Ht.
Qed.

Lemma contains_inv t k l :
  contains t k l = true -> exists v e, find k l = Some (v, e) /\ t < e.
Proof.
  unfold contains. destruct (find k l) as [[v e]|]; [|discriminate].
  intros H. apply Z.ltb_lt in H. eauto.
Qed.

Lemma getitem_fresh t k v e l :
  find k l = Some (v, e) -> t < e ->
  getitem t k l = (Some v, remove k l ++ [(k, (v, e))]).
Proof.
  intros Hf Ht. unfold getitem. rewrite Hf.
  rewrite (proj2 (Z.ltb_lt _ _)) by exact Ht. reflexivity.
Qed.
End LinksFacts.

(** A resolution that finds its key fresh in the symbol cache. *)
Lemma symbol_to_id_hit symbol w v e :
  nrm symbol <> [] ->
  COMMON_IDS !! nrm symbol = None ->
  find (nrm symbol) (symbol_links w) = Some (v, e) ->
  now w < e ->
  symbol_to_id symbol w =
  (Ok v,
   set_symbol_links (remove (nrm symbol) (symbol_links w) ++ [(nrm symbol, (v, e))])
     (GetItem SymbolCache (nrm symbol))
     (set_symbol_links (symbol_links w) (Contains SymbolCache (nrm symbol)) w)).
Proof.
  intros Hk Hc Hf Ht. unfold symbol_to_id. cbv zeta.
  destruct (nrm symbol) as [|c key] eqn:Ek; [congruence|].
  rewrite Hc. unfold bind at 1. unfold symbol_cache_contains.
  rewrite (contains_fresh _ _ _ _ _ Hf Ht).
  unfold symbol_cache_getitem. cbn [now symbol_links set_symbol_links].
  rewrite (getitem_fresh _ _ _ _ _ Hf Ht). reflexivity.
Qed.

(** A resolution that has to ask the remote. *)
Lemma symbol_to_id_miss symbol w :
  nrm symbol <> [] ->
  COMMON_IDS !! nrm symbol = None ->
  contains (now w) (nrm symbol) (symbol_links w) = false ->
  symbol_to_id symbol w =
  (coins <- fetch_json coins_list (COINGECKO_API ++ lit "/coins/list")
              [(lit "include_platform", lit "false")] ;;
   chosen <- match sort_by coin_leb (candidates (nrm symbol) coins) with
             | [] => ret None
             | c :: _ => fun v => (id_of c, v)
             end ;;
   symbol_cache_setitem (nrm symbol) chosen ;;;
   ret chosen)
    (set_symbol_links (symbol_links w) (Contains SymbolCache (nrm symbol)) w).
Proof.
  intros Hk Hc Hmiss. unfold symbol_to_id. cbv zeta.
  destruct (nrm symbol) as [|c key] eqn:Ek; [congruence|].
  rewrite Hc. unfold bind at 1. unfold symbol_cache_contains. rewrite Hmiss.
  unfold bind.
  destruct (fetch_json _ _ _ _) as [[coins|err] w1]; [|reflexivity].
  unfold candidates, symbol_matches, name_matches, id_of.
  destruct (sort_by _ _) as [|c0 rest]; [reflexivity|].
  unfold ret, raise. destruct (c0 !! lit "id"); reflexivity.
Qed.

Lemma fetch_json_caches {A} (ep : remote -> nat -> params -> answer A) url ps w :
  symbol_links (snd (fetch_json ep url ps w)) = symbol_links w /\
  price_links (snd (fetch_json ep url ps w)) = price_links w.
Proof.
  unfold fetch_json.
  destruct (outcome _) as [what|status text [v|]]; [|destruct (negb _)..]; split; reflexivity.
Qed.

Lemma fetch_json_failure {A} (ep : remote -> nat -> params -> answer A) url ps w e :
  failure (outcome (ep (net w) (length (requests w)) ps)) = Some e ->
  fst (fetch_json ep url ps w) = Raise e.
Proof.
  unfold fetch_json, failure.
  destruct (outcome _) as [what|status text [v|]]; [|destruct (negb _)..];
    intros [= <-] || discriminate; reflexivity.
Qed.

Lemma fetch_json_ok {A} (ep : remote -> nat -> params -> answer A) url ps w text v :
  outcome (ep (net w) (length (requests w)) ps) = Response 200 text (Some v) ->
  fst (fetch_json ep url ps w) = Ok v.
Proof.
  unfold fetch_json. intros ->. reflexivity.
Qed.

Lemma symbol_cache_ttl : 0 < ttl symbol_cache.
Proof. reflexivity. Qed.

Lemma price_cache_ttl : 0 < ttl price_cache.
Proof. reflexivity. Qed.

(** C7. For a ticker with no shortcut entry, a successful resolution leaves
    the result stored under the normalized key with an expiry time still
    ahead; and in any world whose symbol cache still holds that entry and
    whose clock is before that expiry time, resolving the same ticker
    returns the same AssetId-or-None value and issues no request. *)
Theorem symbol_cache_coherence (symbol : str) (w w1 : world) (v : option str) :
  COMMON_IDS !! nrm symbol = None ->
  nrm symbol <> [] ->
  symbol_to_id symbol w = (Ok v, w1) ->
  exists expires,
    find (nrm symbol) (symbol_links w1) = Some (v, expires) /\
    now w1 < expires /\
    forall w2,
      find (nrm symbol) (symbol_links w2) = Some (v, expires) ->
      now w2 < expires ->
      exists w3, symbol_to_id symbol w2 = (Ok v, w3) /\ requests w3 = requests w2.
Proof.
  intros Hc Hk Hrun.
  assert (Hagain : forall e w2,
             find (nrm symbol) (symbol_links w2) = Some (v, e) -> now w2 < e ->
             exists w3, symbol_to_id symbol w2 = (Ok v, w3) /\ requests w3 = requests w2).
  { intros e w2 Hf Ht. rewrite (symbol_to_id_hit _ _ _ _ Hk Hc Hf Ht).
    eexists. split; reflexivity. }
  destruct (contains (now w) (nrm symbol) (symbol_links w)) eqn:Hit.
  - apply contains_inv in Hit as (v0 & e & Hf & Ht).
    rewrite (symbol_to_id_hit _ _ _ _ Hk Hc Hf Ht) in Hrun.
    injection Hrun as -> <-.
    exists e. split_and!; [apply find_stored | exact Ht | apply Hagain].
  - rewrite (symbol_to_id_miss _ _ Hk Hc Hit) in Hrun.
    unfold bind in Hrun.
    destruct (fetch_json _ _ _ _) as [[coins|err] wf]; [|discriminate].
    destruct (match sort_by coin_leb (candidates (nrm symbol) coins) with
              | [] => ret None
              | c :: _ => fun v => (id_of c, v)
              end wf) as [[chosen|err] wc] eqn:Hch; [|discriminate].
    assert (wc = wf) as ->.
    { destruct (sort_by _ _); unfold ret in Hch; congruence. }
    unfold symbol_cache_setitem in Hrun.
    destruct (setitem symbol_cache (now wf) (nrm symbol) chosen (symbol_links wf))
      as [l'|] eqn:Hset; [|discriminate].
    cbn in Hrun. injection Hrun as -> <-.
    exists (now wf + ttl symbol_cache).
    split_and!; [exact (setitem_stored _ _ _ _ _ _ Hset) | | apply Hagain].
    cbn [now set_symbol_links]. pose proof symbol_cache_ttl. lia.
Qed.

Lemma symbol_cache_coherence_witness :
  symbol_to_id (lit "PEPE") listing =
    (Ok (Some (lit "pepe")), snd (symbol_to_id (lit "PEPE") listing)) /\
  exists w3,
    symbol_to_id (lit "PEPE") (snd (symbol_to_id (lit "PEPE") listing)) =
      (Ok (Some (lit "pepe")), w3) /\
    requests w3 = requests (snd (symbol_to_id (lit "PEPE") listing)).
Proof.
  assert (Hrun : symbol_to_id (lit "PEPE") listing =
                 (Ok (Some (lit "pepe")), snd (symbol_to_id (lit "PEPE") listing)))
    by (vm_compute; reflexivity).
  assert (Hc : COMMON_IDS !! nrm (lit "PEPE") = None) by (vm_compute; reflexivity).
  assert (Hk : nrm (lit "PEPE") <> []) by (vm_compute; discriminate).
  split; [exact Hrun|].
  destruct (symbol_cache_coherence (lit "PEPE") listing _ _ Hc Hk Hrun)
    as (expires & Hf & Ht & Hagain).
  exact (Hagain _ Hf Ht).
Defined.

(** C4. When the remote call of a symbol resolution or of a price fetch
    fails (no response, or a status other than 200), the call raises the
    error of the failure and both caches hold exactly what they held
    before. *)
Theorem remote_failure_leaves_caches :
  (forall symbol w e,
     nrm symbol <> [] ->
     COMMON_IDS !! nrm symbol = None ->
     contains (now w) (nrm symbol) (symbol_links w) = false ->
     failure (outcome (coins_list (net w) (length (requests w))
                         [(lit "include_platform", lit "false")])) = Some e ->
     exists w',
       symbol_to_id symbol w = (Raise e, w') /\
       symbol_links w' = symbol_links w /\ price_links w' = price_links w) /\
  (forall ids vs w e,
     contains (now w) (cache_key ids vs) (price_links w) = false ->
     failure (outcome (simple_price (net w) (length (requests w))
                         [ (lit "ids", join (lit ",") ids);
                           (lit "vs_currencies", join (lit ",") vs);
                           (lit "precision", lit "full") ])) = Some e ->
     exists w',
       get_prices ids vs w = (Raise e, w') /\
       symbol_links w' = symbol_links w /\ price_links w' = price_links w).
Proof.
  split.
  - intros symbol w e Hk Hc Hmiss Hfail.
    rewrite (symbol_to_id_miss _ _ Hk Hc Hmiss). unfold bind at 1.
    pose proof (fetch_json_failure coins_list (COINGECKO_API ++ lit "/coins/list") _
                  (set_symbol_links (symbol_links w) (Contains SymbolCache (nrm symbol)) w)
                  e Hfail) as Hr.
    pose proof (fetch_json_caches coins_list (COINGECKO_API ++ lit "/coins/list")
                  [(lit "include_platform", lit "false")]
                  (set_symbol_links (symbol_links w) (Contains SymbolCache (nrm symbol)) w))
      as [Hs Hp].
    destruct (fetch_json _ _ _ _) as [r wf]. cbn in Hr, Hs, Hp. subst r.
    exists wf. split_and!; [reflexivity | exact Hs | exact Hp].
  - intros ids vs w e Hmiss Hfail.
    unfold get_prices. cbv zeta. unfold bind at 1. unfold price_cache_contains.
    rewrite Hmiss. unfold bind at 1.
    pose proof (fetch_json_failure simple_price (COINGECKO_API ++ lit "/simple/price") _
                  (set_price_links (price_links w) (Contains PriceCache (cache_key ids vs)) w)
                  e Hfail) as Hr.
    pose proof (fetch_json_caches simple_price (COINGECKO_API ++ lit "/simple/price")
                  [ (lit "ids", join (lit ",") ids);
                    (lit "vs_currencies", join (lit ",") vs);
                    (lit "precision", lit "full") ]
                  (set_price_links (price_links w) (Contains PriceCache (cache_key ids vs)) w))
      as [Hs Hp].
    destruct (fetch_json _ _ _ _) as [r wf]. cbn in Hr, Hs, Hp. subst r.
    exists wf. split_and!; [reflexivity | exact Hs | exact Hp].
Qed.

Lemma remote_failure_leaves_caches_witness :
  (exists w',
     symbol_to_id (lit "pepe") overloaded =
       (Raise (status_error 503 (lit "busy")), w') /\
     symbol_links w' = symbol_links overloaded /\
     price_links w' = price_links overloaded) /\
  (exists w',
     get_prices [lit "bitcoin"] [lit "usd"] offline =
       (Raise (ClientError (lit "TimeoutError")), w') /\
     symbol_links w' = symbol_links offline /\
     price_links w' = price_links offline).
Proof.
  split.
  - refine (proj1 remote_failure_leaves_caches (lit "pepe") overloaded _ _ _ _ _).
    + vm_compute. discriminate.
    + vm_compute. reflexivity.
    + reflexivity.
    + reflexivity.
  - refine (proj2 remote_failure_leaves_caches [lit "bitcoin"] [lit "usd"] offline _ _ _).
    + reflexivity.
    + reflexivity.
Defined.

(** *** Candidate selection *)

Lemma coin_leb_ranks (c c' : coin) : coin_leb c c' = true <-> ranks_le c c'.
Proof.
  unfold coin_leb, key_leb, ranks_le, sort_key. cbn [fst snd].
  destruct (Nat.compare_spec (length (dict_get c (lit "name") []))
                             (length (dict_get c' (lit "name") []))) as [E|E|E].
  - rewrite str_leb_le. split; [auto|]. intros [H|[_ H]]; [lia|exact H].
  - split; [auto|reflexivity].
  - split; [discriminate|]. intros [H|[H _]]; lia.
Qed.

#[local] Instance coin_leb_total : Total (fun c c' => coin_leb c c' = true).
Proof.
  intros c c'. rewrite !coin_leb_ranks. unfold ranks_le.
  destruct (lt_eq_lt_dec (length (dict_get c (lit "name") []))
                         (length (dict_get c' (lit "name") []))) as [[H|H]|H]; auto.
  destruct (str_lem_total (dict_get c (lit "id") []) (dict_get c' (lit "id") [])) as [T|T];
    apply str_leb_le in T; auto.
Qed.

#[local] Instance coin_leb_trans : Transitive (fun c c' => coin_leb c c' = true).
Proof.
  intros c1 c2 c3. rewrite !coin_leb_ranks. unfold ranks_le.
  intros [H1|[H1 L1]] [H2|[H2 L2]]; try (left; lia).
  right. split; [lia|].
  apply str_leb_le. apply str_leb_le in L1, L2.
  exact (str_lem_trans _ _ _ L1 L2).
Qed.

Lemma candidates_spec (key : str) (coins : list coin) (c : coin) :
  c ∈ candidates key coins <->
  c ∈ coins /\
  (nrm (dict_get c (lit "symbol") []) = key \/
   ((forall c', c' ∈ coins -> nrm (dict_get c' (lit "symbol") []) <> key) /\
    nrm (dict_get c (lit "name") []) = key)).
Proof.
  unfold candidates.
  assert (Hsym : forall x, x ∈ symbol_matches key coins <->
                           x ∈ coins /\ nrm (dict_get x (lit "symbol") []) = key).
  { intros x. unfold symbol_matches. rewrite !list_elem_of_In, filter_In.
    rewrite bool_decide_eq_true. reflexivity. }
  assert (Hname : forall x, x ∈ name_matches key coins <->
                            x ∈ coins /\ nrm (dict_get x (lit "name") []) = key).
  { intros x. unfold name_matches. rewrite !list_elem_of_In, filter_In.
    rewrite bool_decide_eq_true. reflexivity. }
  destruct (symbol_matches key coins) as [|m ms] eqn:E.
  - rewrite Hname. split.
    + intros [Hin Hn]. split; [exact Hin|]. right. split; [|exact Hn].
      intros c' Hc' Hs. assert (Hx : c' ∈ []) by (apply Hsym; auto).
      inversion Hx.
    + intros [Hin [Hs|[_ Hn]]]; [|auto].
      assert (Hx : c ∈ []) by (apply Hsym; auto). inversion Hx.
  - rewrite Hsym. split.
    + intros [Hin Hs]. auto.
    + intros [Hin [Hs|[Hno _]]]; [auto|].
      exfalso. assert (Hm : m ∈ m :: ms) by left.
      apply Hsym in Hm as [Hm1 Hm2]. exact (Hno m Hm1 Hm2).
Qed.

(** C6. When the resolver has to ask the remote and receives the asset list
    [coins], it selects among the candidates: the records whose normalized
    symbol is the key or, only when no record has that symbol, the records
    whose normalized name is the key.  With no candidate the result is
    None; otherwise the result is the id of a candidate that has the
    shortest name and, among those of that length, the lexicographically
    smallest id. *)
Theorem remote_candidate_selection (symbol : str) (w : world) (text : str)
    (coins : list coin) :
  nrm symbol <> [] ->
  COMMON_IDS !! nrm symbol = None ->
  contains (now w) (nrm symbol) (symbol_links w) = false ->
  outcome (coins_list (net w) (length (requests w))
             [(lit "include_platform", lit "false")]) = Response 200 text (Some coins) ->
  (forall c, c ∈ candidates (nrm symbol) coins <->
     c ∈ coins /\
     (nrm (dict_get c (lit "symbol") []) = nrm symbol \/
      ((forall c', c' ∈ coins -> nrm (dict_get c' (lit "symbol") []) <> nrm symbol) /\
       nrm (dict_get c (lit "name") []) = nrm symbol))) /\
  (candidates (nrm symbol) coins = [] -> fst (symbol_to_id symbol w) = Ok None) /\
  (candidates (nrm symbol) coins <> [] ->
   exists c,
     c ∈ candidates (nrm symbol) coins /\
     (forall c', c' ∈ candidates (nrm symbol) coins -> ranks_le c c') /\
     fst (symbol_to_id symbol w) = id_of c).
Proof.
  intros Hk Hc Hmiss Hok.
  split; [intros c; apply candidates_spec|].
  rewrite (symbol_to_id_miss _ _ Hk Hc Hmiss). unfold bind.
  pose proof (fetch_json_ok coins_list (COINGECKO_API ++ lit "/coins/list") _
                (set_symbol_links (symbol_links w) (Contains SymbolCache (nrm symbol)) w)
                text coins Hok) as Hr.
  destruct (fetch_json _ _ _ _) as [r wf]. cbn in Hr. subst r.
  assert (Hstore : forall chosen,
             fst (let (r0, w'0) := symbol_cache_setitem (nrm symbol) chosen wf in
                  match r0 with
                  | Ok _ => ret chosen w'0
                  | Raise e => (Raise e, w'0)
                  end) = Ok chosen).
  { intros chosen. unfold symbol_cache_setitem.
    destruct (setitem_room symbol_cache (now wf) (nrm symbol) chosen (symbol_links wf))
      as [l' ->]; [cbn; lia|]. reflexivity. }
  destruct (sort_by coin_leb (candidates (nrm symbol) coins)) as [|c rest] eqn:Hs.
  - apply sort_by_nil in Hs. split; [|congruence].
    intros _. unfold ret at 1. apply Hstore.
  - split.
    + intros Hnil. rewrite Hnil in Hs. discriminate.
    + intros _.
      destruct (sort_by_head coin_leb coin_leb_total coin_leb_trans _ _ _ Hs) as [Hin Hmin].
      exists c. split_and!; [exact Hin | intros c' Hc'; apply coin_leb_ranks; auto |].
      destruct (id_of c) as [chosen|err]; [apply Hstore|reflexivity].
Qed.

Lemma remote_candidate_selection_witness :
  candidates (nrm (lit "PEPE")) pepes <> [] /\
  exists c,
    c ∈ candidates (nrm (lit "PEPE")) pepes /\
    (forall c', c' ∈ candidates (nrm (lit "PEPE")) pepes -> ranks_le c c') /\
    fst (symbol_to_id (lit "PEPE") listing) = id_of c.
Proof.
  assert (Hne : candidates (nrm (lit "PEPE")) pepes <> []).
  { intros H. apply (f_equal length) in H. vm_compute in H. discriminate. }
  split; [exact Hne|].
  refine (proj2 (proj2 (remote_candidate_selection (lit "PEPE") listing [] pepes _ _ _ _)) Hne).
  - vm_compute. discriminate.
  - vm_compute. reflexivity.
  - reflexivity.
  - reflexivity.
Defined.

(** ** The price fetcher *)

(** A price fetch that finds its key fresh in the price cache. *)
Lemma get_prices_hit ids vs w data e :
  find (cache_key ids vs) (price_links w) = Some (data, e) ->
  now w < e ->
  get_prices ids vs w =
  (Ok data,
   set_price_links (remove (cache_key ids vs) (price_links w) ++ [(cache_key ids vs, (data, e))])
     (GetItem PriceCache (cache_key ids vs))
     (set_price_links (price_links w) (Contains PriceCache (cache_key ids vs)) w)).
Proof.
  intros Hf Ht. unfold get_prices. cbv zeta.
  unfold bind at 1. unfold price_cache_contains.
  rewrite (contains_fresh _ _ _ _ _ Hf Ht).
  unfold price_cache_getitem. cbn [now price_links set_price_links].
  rewrite (getitem_fresh _ _ _ _ _ Hf Ht). reflexivity.
Qed.

(** A successful price fetch leaves its table in the price cache, under the
    cache key, with an expiry time still ahead. *)
Lemma get_prices_stores ids vs w data w1 :
  get_prices ids vs w = (Ok data, w1) ->
  exists e, find (cache_key ids vs) (price_links w1) = Some (data, e) /\ now w1 < e.
Proof.
  intros Hrun.
  destruct (contains (now w) (cache_key ids vs) (price_links w)) eqn:Hit.
  - apply contains_inv in Hit as (d0 & e & Hf & Ht).
    rewrite (get_prices_hit _ _ _ _ _ Hf Ht) in Hrun.
    injection Hrun as -> <-.
    exists e. split; [apply find_stored | exact Ht].
  - unfold get_prices in Hrun. cbv zeta in Hrun.
    unfold bind at 1 in Hrun. unfold price_cache_contains in Hrun.
    rewrite Hit in Hrun. unfold bind in Hrun.
    destruct (fetch_json _ _ _ _) as [[d|err] wf]; [|discriminate].
    unfold price_cache_setitem in Hrun.
    destruct (setitem price_cache (now wf) (cache_key ids vs) d (price_links wf))
      as [l'|] eqn:Hset; [|discriminate].
    cbn in Hrun. injection Hrun as -> <-.
    exists (now wf + ttl price_cache).
    split; [exact (setitem_stored _ _ _ _ _ _ Hset)|].
    cbn [now set_price_links]. pose proof price_cache_ttl. lia.
Qed.

(** C3, as amended. The cache key is the sorted join of the ids, a bar, and
    the sorted join of the quote currencies, duplicates kept: two calls
    whose ids and whose quotes are the same up to order have the same
    cache key, and so the second call, made right after the first has
    succeeded, is answered from the first call's cache entry without a
    request. *)
Theorem cache_key_order_insensitive (ids ids' vs vs' : list str) :
  ids ≡ₚ ids' ->
  vs ≡ₚ vs' ->
  cache_key ids vs = cache_key ids' vs' /\
  forall w data w1,
    get_prices ids vs w = (Ok data, w1) ->
    exists w2, get_prices ids' vs' w1 = (Ok data, w2) /\ requests w2 = requests w1.
Proof.
  intros Hi Hv.
  assert (Hkey : cache_key ids vs = cache_key ids' vs').
  { unfold cache_key. rewrite (sorted_Permutation _ _ Hi), (sorted_Permutation _ _ Hv).
    reflexivity. }
  split; [exact Hkey|].
  intros w data w1 Hrun.
  apply get_prices_stores in Hrun as (e & Hf & Ht).
  rewrite Hkey in Hf.
  rewrite (get_prices_hit _ _ _ _ _ Hf Ht).
  eexists. split; reflexivity.
Qed.

Lemma cache_key_order_insensitive_witness :
  cache_key [lit "solana"; lit "ethereum"] [lit "usd"] =
  cache_key [lit "ethereum"; lit "solana"] [lit "usd"] /\
  exists w2,
    get_prices [lit "ethereum"; lit "solana"] [lit "usd"]
      (fetched [lit "solana"; lit "ethereum"] [lit "usd"] (pricing eth_sol)) =
      (Ok eth_sol, w2) /\
    requests w2 =
    requests (fetched [lit "solana"; lit "ethereum"] [lit "usd"] (pricing eth_sol)).
Proof.
  destruct (cache_key_order_insensitive
              [lit "solana"; lit "ethereum"] [lit "ethereum"; lit "solana"]
              [lit "usd"] [lit "usd"]
              (Permutation_swap _ _ []) (Permutation_refl _)) as [Hkey Hshare].
  split; [exact Hkey|].
  apply (Hshare (pricing eth_sol)). reflexivity.
Defined.

(** C3, as stated, fails for calls that differ in duplication: the ids
    "bitcoin, bitcoin" and "bitcoin" are the same set, yet the cache keys
    differ. *)
Lemma cache_key_keeps_duplicates :
  (list_to_set [lit "bitcoin"; lit "bitcoin"] : gset str) = list_to_set [lit "bitcoin"] /\
  cache_key [lit "bitcoin"; lit "bitcoin"] [lit "usd"] = lit "bitcoin,bitcoin|usd" /\
  cache_key [lit "bitcoin"] [lit "usd"] = lit "bitcoin|usd" /\
  cache_key [lit "bitcoin"; lit "bitcoin"] [lit "usd"] <> cache_key [lit "bitcoin"] [lit "usd"].
Proof.
  split_and!.
  - vm_compute. reflexivity.
  - vm_compute. reflexivity.
  - vm_compute. reflexivity.
  - vm_compute. discriminate.
Qed.


(** * Further properties *)

(** ** The normalizer *)

Lemma lower_char_az09 (c : N) : is_az09 c = true -> lower_char c = [c].
Proof.
  unfold is_az09, lower_char. intros H.
  destruct ((65 <=? c) && (c <=? 90))%N eqn:E1.
  { apply andb_true_iff in E1 as [A1 A2].
    apply N.leb_le in A1, A2.
    apply orb_true_iff in H as [H|H]; apply andb_true_iff in H as [B1 B2];
      apply N.leb_le in B1, B2; lia. }
  destruct (c =? 304)%N eqn:E2.
  { apply N.eqb_eq in E2. subst c. discriminate. }
  destruct (c =? 8490)%N eqn:E3.
  { apply N.eqb_eq in E3. subst c. discriminate. }
  reflexivity.
Qed.

Lemma nrm_alphabet (s : str) : az09 (nrm s).
Proof.
  unfold az09, nrm. apply Forall_forall. intros c Hc.
  apply list_elem_of_In, filter_In in Hc. tauto.
Qed.

Lemma nrm_fixed (s : str) : az09 s -> nrm s = s.
Proof.
  unfold az09, nrm, lower. induction 1 as [|c s Hc Hs IH]; [reflexivity|].
  cbn [flat_map]. rewrite (lower_char_az09 c Hc). cbn. rewrite Hc. f_equal. exact IH.
Qed.

Lemma nrm_nrm (s : str) : nrm (nrm s) = nrm s.
Proof. apply nrm_fixed, nrm_alphabet. Qed.

Lemma symbol_to_id_nrm (symbol : str) (w : world) :
  symbol_to_id (nrm symbol) w = symbol_to_id symbol w.
Proof. unfold symbol_to_id. rewrite nrm_nrm. reflexivity. Qed.

(** X1. Normalizing twice is normalizing once. *)
Theorem nrm_idempotent (s : str) : nrm (nrm s) = nrm s.
Proof.
  unfold nrm at 1. unfold lower.
  induction (nrm_alphabet s) as [|c k Hc Hk IH]; [reflexivity|].
  cbn [flat_map]. rewrite (lower_char_az09 c Hc). cbn. rewrite Hc. f_equal. exact IH.
Qed.

(** X2. The strings that [nrm] leaves as they are, are exactly the strings
    over lowercase ASCII letters and digits; and [nrm] deletes or lowers
    characters one by one, so it distributes over concatenation. *)
Theorem nrm_fixed_points (s t : str) :
  (nrm s = s <-> az09 s) /\ nrm (s ++ t) = nrm s ++ nrm t.
Proof.
  split.
  - split; [intros <-; apply nrm_alphabet | apply nrm_fixed].
  - unfold nrm, lower. rewrite flat_map_app, List.filter_app. reflexivity.
Qed.

(** X3. The handler hands [symbol_to_id] a ticker it has normalized already,
    and [symbol_to_id] normalizes again: this changes nothing, a ticker and
    its normalized form resolve alike in every world. *)
Theorem symbol_to_id_normalized (symbol : str) (w : world) :
  symbol_to_id (nrm symbol) w = symbol_to_id symbol w.
Proof.
  unfold symbol_to_id. rewrite nrm_nrm. reflexivity.
Qed.

(** X4. The same for the formatter: [fmt] sees the quote only through its
    normalized form. *)
Theorem fmt_normalized (x : float) (quote : str) :
  fmt x (nrm quote) = fmt x quote.
Proof.
  unfold fmt. rewrite nrm_nrm. reflexivity.
Qed.

Lemma symbol_to_id_empty_key (symbol : str) (w : world) :
  nrm symbol = [] -> symbol_to_id symbol w = (Ok None, w).
Proof.
  intros H. unfold symbol_to_id. rewrite H. reflexivity.
Qed.

(** ** Replies of the handler *)

(** X5. A base ticker that normalizes to the empty key (the pattern lets
    through letters such as U+017F, which [nrm] deletes) is answered with
    "Unknown base asset" at once: no cache is consulted, nothing is
    requested, and the world only gains the reply. *)
Theorem empty_base_key_unknown (amt : float) (group2 group3 : str) (w : world) :
  nrm group2 = [] ->
  handle_message amt group2 group3 w = reply_text (UnknownBase group2) w.
Proof.
  intros H. unfold handle_message. cbv zeta. unfold bind at 1.
  rewrite (symbol_to_id_empty_key (nrm group2) w) by (rewrite nrm_nrm; exact H).
  reflexivity.
Qed.

Lemma empty_base_key_unknown_witness :
  nrm [383%N] = [] /\
  handle_message 1 [383%N] (lit "usd") listing = reply_text (UnknownBase [383%N]) listing.
Proof.
  split; [reflexivity|].
  exact (empty_base_key_unknown 1 [383%N] (lit "usd") listing eq_refl).
Defined.

(** X6. When the base ticker resolves to nothing (None, or an empty id),
    the handler replies "Unknown base asset" with the ticker as typed and
    stops: the world is the one the resolution left, so no price is
    fetched and the quote is not resolved. *)
Theorem unknown_base_asset (amt : float) (group2 group3 : str) (w w1 : world) (r : option str) :
  symbol_to_id (nrm group2) w = (Ok r, w1) ->
  r = None \/ r = Some [] ->
  handle_message amt group2 group3 w = reply_text (UnknownBase group2) w1.
Proof.
  intros Hrun Hr. unfold handle_message. cbv zeta. unfold bind at 1.
  rewrite Hrun. destruct Hr as [-> | ->]; reflexivity.
Qed.

Lemma unknown_base_asset_witness :
  symbol_to_id (nrm (lit "zzzznotacoin")) listing =
    (Ok None, snd (symbol_to_id (lit "zzzznotacoin") listing)) /\
  handle_message 1 (lit "zzzznotacoin") (lit "usd") listing =
    reply_text (UnknownBase (lit "zzzznotacoin"))
      (snd (symbol_to_id (lit "zzzznotacoin") listing)) /\
  length (requests (snd (handle_message 1 (lit "zzzznotacoin") (lit "usd") listing))) = 1%nat.
Proof.
  assert (Hrun : symbol_to_id (nrm (lit "zzzznotacoin")) listing =
                 (Ok None, snd (symbol_to_id (lit "zzzznotacoin") listing)))
    by (vm_compute; reflexivity).
  pose proof (unknown_base_asset 1 (lit "zzzznotacoin") (lit "usd") listing _ None
                Hrun (or_introl eq_refl)) as H.
  split_and!; [exact Hrun | exact H |].
  rewrite H. vm_compute. reflexivity.
Defined.

(** X7. In the cross-asset branch, when the quote ticker resolves to
    nothing, the handler replies "Unknown quote asset" with the ticker as
    typed, and no price is fetched. *)
Theorem unknown_quote_asset (amt : float) (group2 group3 : str) (w w1 w2 : world)
    (base_id : str) (r : option str) :
  nrm group3 ∉ FIAT_WHITELIST ->
  symbol_to_id (nrm group2) w = (Ok (Some base_id), w1) ->
  base_id <> [] ->
  symbol_to_id (nrm group3) w1 = (Ok r, w2) ->
  r = None \/ r = Some [] ->
  handle_message amt group2 group3 w = reply_text (UnknownQuote group3) w2.
Proof.
  intros Hq Hb Hbid Hs Hr. unfold handle_message. cbv zeta.
  rewrite (bool_decide_eq_false_2 _ Hq).
  unfold bind at 1. rewrite Hb.
  destruct base_id as [|c base_id]; [congruence|].
  unfold bind at 1. rewrite Hs.
  destruct Hr as [-> | ->]; reflexivity.
Qed.

Lemma unknown_quote_asset_witness :
  handle_message 1 (lit "btc") (lit "zzzznotacoin") listing =
  reply_text (UnknownQuote (lit "zzzznotacoin"))
    (snd (symbol_to_id (lit "zzzznotacoin") listing)).
Proof.
  refine (unknown_quote_asset 1 (lit "btc") (lit "zzzznotacoin") listing listing _
            (lit "bitcoin") None _ _ _ _ (or_introl eq_refl)).
  - vm_compute. discriminate.
  - reflexivity.
  - discriminate.
  - vm_compute. reflexivity.
Defined.

(** X8. In the fiat branch the price is taken as the source reports it for
    the pair: when the table has it, the conversion succeeds with rate =
    price and converted amount = amount * price; when the table lacks the
    asset or the currency, the reply is "Price unavailable" and nothing is
    raised. *)
Theorem fiat_conversion (amt : float) (group2 group3 : str) (w w' : world)
    (base_id : str) (P : prices) :
  fiat_fetch group2 group3 w base_id P w' ->
  (forall p, price_of P base_id (nrm group3) = Some p ->
     handle_message amt group2 group3 w =
     reply_text (Converted amt (nrm group2) (amt * p)%float (nrm group3) p) w') /\
  (price_of P base_id (nrm group3) = None ->
     handle_message amt group2 group3 w = reply_text PriceUnavailable w').
Proof.
  intros Hrun. rewrite (handle_message_fiat _ _ _ _ _ _ _ Hrun).
  split.
  - intros p ->. reflexivity.
  - intros ->. reflexivity.
Qed.

Lemma fiat_conversion_witness :
  handle_message 2 (lit "BTC") (lit "usd") (pricing btc_usd) =
    reply_text (Converted 2 (lit "btc") 130000 (lit "usd") 65000)
      (fetched [lit "bitcoin"] [lit "usd"] (pricing btc_usd)) /\
  fmt 130000 (lit "usd") = lit "130,000.00" /\
  handle_message 2 (lit "BTC") (lit "eur") (pricing btc_usd) =
    reply_text PriceUnavailable (fetched [lit "bitcoin"] [lit "eur"] (pricing btc_usd)).
Proof.
  assert (Hu : fiat_fetch (lit "BTC") (lit "usd") (pricing btc_usd) (lit "bitcoin")
                 btc_usd (fetched [lit "bitcoin"] [lit "usd"] (pricing btc_usd))).
  { split; [vm_compute; reflexivity|].
    exists (pricing btc_usd). split_and!; try discriminate; reflexivity. }
  assert (He : fiat_fetch (lit "BTC") (lit "eur") (pricing btc_usd) (lit "bitcoin")
                 btc_usd (fetched [lit "bitcoin"] [lit "eur"] (pricing btc_usd))).
  { split; [vm_compute; reflexivity|].
    exists (pricing btc_usd). split_and!; try discriminate; reflexivity. }
  split_and!.
  - exact (proj1 (fiat_conversion 2 _ _ _ _ _ _ Hu) 65000%float eq_refl).
  - vm_compute. reflexivity.
  - exact (proj2 (fiat_conversion 2 _ _ _ _ _ _ He) eq_refl).
Defined.

(** X9. In the cross-asset branch a table that lacks the USD price of the
    base or of the quote gives "Price unavailable"; nothing is raised. *)
Theorem cross_missing_price (amt : float) (group2 group3 : str) (w w' : world)
    (base_id quote_id : str) (P : prices) :
  cross_fetch group2 group3 w base_id quote_id P w' ->
  price_of P base_id (lit "usd") = None \/ price_of P quote_id (lit "usd") = None ->
  handle_message amt group2 group3 w = reply_text PriceUnavailable w'.
Proof.
  intros Hrun Hmiss. rewrite (handle_message_cross _ _ _ _ _ _ _ _ Hrun). cbv zeta.
  destruct Hmiss as [-> | ->]; cbn [falsy].
  - reflexivity.
  - rewrite orb_true_r. reflexivity.
Qed.

Lemma cross_missing_price_witness :
  price_of btc_usd (lit "solana") (lit "usd") = None /\
  handle_message 1 (lit "eth") (lit "sol") (pricing btc_usd) =
  reply_text PriceUnavailable
    (fetched [lit "ethereum"; lit "solana"] [lit "usd"] (pricing btc_usd)).
Proof.
  assert (Hrun : cross_fetch (lit "eth") (lit "sol") (pricing btc_usd)
                   (lit "ethereum") (lit "solana") btc_usd
                   (fetched [lit "ethereum"; lit "solana"] [lit "usd"] (pricing btc_usd))).
  { split; [vm_compute; discriminate|].
    exists (pricing btc_usd), (pricing btc_usd).
    split_and!; try discriminate; reflexivity. }
  split; [reflexivity|].
  exact (cross_missing_price 1 _ _ _ _ _ _ _ Hrun (or_intror eq_refl)).
Defined.

(** ** What a run changes *)

Section Frame.
Context (I : world -> world -> Prop).
Context (I_refl : forall w, I w w).
Context (I_trans : forall a b c, I a b -> I b c -> I a c).

Lemma preserves_ret {A} (a : A) : preserves I (ret a).
Proof. intros w. apply I_refl. Qed.

Lemma preserves_raise {A} (e : exn) : preserves I (raise (A := A) e).
Proof. intros w. apply I_refl. Qed.

Lemma preserves_bind {A B} (m : M A) (k : A -> M B) :
  preserves I m -> (forall a, preserves I (k a)) -> preserves I (bind m k).
Proof.
  intros Hm Hk w. unfold bind. specialize (Hm w).
  destruct (m w) as [[a|e] w1]; cbn in *.
  - exact (I_trans _ _ _ Hm (Hk a w1)).
  - exact Hm.
Qed.

Context (I_symbol_contains : forall k, preserves I (symbol_cache_contains k)).
Context (I_symbol_getitem : forall k, preserves I (symbol_cache_getitem k)).
Context (I_symbol_setitem : forall k v, preserves I (symbol_cache_setitem k v)).
Context (I_price_contains : forall k, preserves I (price_cache_contains k)).
Context (I_price_getitem : forall k, preserves I (price_cache_getitem k)).
Context (I_price_setitem : forall k v, preserves I (price_cache_setitem k v)).
Context (I_fetch : forall A (ep : remote -> nat -> params -> answer A) url ps,
            preserves I (fetch_json ep url ps)).

Lemma symbol_to_id_preserves (symbol : str) : preserves I (symbol_to_id symbol).
Proof.
  unfold symbol_to_id. cbv zeta.
  destruct (nrm symbol) as [|c key]; [apply preserves_ret|].
  destruct (COMMON_IDS !! (c :: key)); [apply preserves_ret|].
  apply preserves_bind; [apply I_symbol_contains|].
  intros [|]; [apply I_symbol_getitem|].
  apply preserves_bind; [apply I_fetch|]. intros coins.
  apply preserves_bind.
  - destruct (sort_by _ _) as [|c0 rest]; [apply preserves_ret|].
    destruct (c0 !! lit "id"); [apply preserves_ret|apply preserves_raise].
  - intros chosen. apply preserves_bind; [apply I_symbol_setitem|].
    intros; apply preserves_ret.
Qed.

Lemma get_prices_preserves (ids vs : list str) : preserves I (get_prices ids vs).
Proof.
  unfold get_prices. cbv zeta.
  apply preserves_bind; [apply I_price_contains|].
  intros [|]; [apply I_price_getitem|].
  apply preserves_bind; [apply I_fetch|]. intros data.
  apply preserves_bind; [apply I_price_setitem|].
  intros; apply preserves_ret.
Qed.

Context (I_reply : forall m, preserves I (reply_text m)).

Lemma handle_message_preserves (amt : float) (group2 group3 : str) :
  preserves I (handle_message amt group2 group3).
Proof.
  unfold handle_message. cbv zeta.
  apply preserves_bind; [apply symbol_to_id_preserves|].
  intros [[|c base_id]|]; [apply I_reply| |apply I_reply].
  destruct (bool_decide _).
  - apply preserves_bind; [apply get_prices_preserves|]. intros P.
    destruct (price_of _ _ _); apply I_reply.
  - apply preserves_bind; [apply symbol_to_id_preserves|].
    intros [[|d quote_id]|]; [apply I_reply| |apply I_reply].
    apply preserves_bind; [apply get_prices_preserves|]. intros P.
    destruct (_ || _); [apply I_reply|].
    apply preserves_bind; [destruct (price_of _ _ _); [apply preserves_ret|apply preserves_raise]|].
    intros b.
    apply preserves_bind; [destruct (price_of _ _ _); [apply preserves_ret|apply preserves_raise]|].
    intros q.
    apply preserves_bind; [|intros; apply I_reply].
    unfold truediv. destruct (q =? 0)%float; [apply preserves_raise|apply preserves_ret].
Qed.
End Frame.

(** The resolver and the price fetcher send no reply. *)
Lemma symbol_to_id_sent symbol w : sent (snd (symbol_to_id symbol w)) = sent w.
Proof.
  apply (symbol_to_id_preserves (fun a b => sent b = sent a)).
  - reflexivity.
  - intros a b c H1 H2. congruence.
  - intros k v0. reflexivity.
  - intros k v0. unfold symbol_cache_getitem.
    destruct (getitem _ _ _) as [r l]. reflexivity.
  - intros k v v0. unfold symbol_cache_setitem.
    destruct (setitem _ _ _ _ _); reflexivity.
  - intros A ep url ps v0. unfold fetch_json.
    destruct (outcome _) as [what|status text [x|]]; [|destruct (negb _)..]; reflexivity.
Qed.

Lemma get_prices_sent ids vs w : sent (snd (get_prices ids vs w)) = sent w.
Proof.
  apply (get_prices_preserves (fun a b => sent b = sent a)).
  - reflexivity.
  - intros a b c H1 H2. congruence.
  - intros k v0. reflexivity.
  - intros k v0. unfold price_cache_getitem.
    destruct (getitem _ _ _) as [r l]. reflexivity.
  - intros k v v0. unfold price_cache_setitem.
    destruct (setitem _ _ _ _ _); reflexivity.
  - intros A ep url ps v0. unfold fetch_json.
    destruct (outcome _) as [what|status text [x|]]; [|destruct (negb _)..]; reflexivity.
Qed.

(** X10. Every run of the handler that returns has sent exactly one reply,
    and every run that raises has sent none: an error of the remote leaves
    the user without an answer. *)
Theorem one_reply_or_none (amt : float) (group2 group3 : str) (w : world) :
  match fst (handle_message amt group2 group3 w) with
  | Ok _ => exists m, sent (snd (handle_message amt group2 group3 w)) = sent w ++ [m]
  | Raise _ => sent (snd (handle_message amt group2 group3 w)) = sent w
  end.
Proof.
  set (Q := fun r : result unit * world =>
              match fst r with
              | Ok _ => exists m, sent (snd r) = sent w ++ [m]
              | Raise _ => sent (snd r) = sent w
              end).
  change (Q (handle_message amt group2 group3 w)).
  assert (Hreply : forall m v, sent v = sent w -> Q (reply_text m v)).
  { intros m v Hv. unfold Q. cbn. exists m. rewrite Hv. reflexivity. }
  assert (Hraise : forall e v, sent v = sent w -> Q (Raise e, v)).
  { intros e v Hv. exact Hv. }
  unfold handle_message. cbv zeta. unfold bind at 1.
  pose proof (symbol_to_id_sent (nrm group2) w) as H1.
  destruct (symbol_to_id (nrm group2) w) as [[r|e] w1]; cbn [snd] in H1; [|auto].
  destruct r as [[|c base_id]|]; [auto| |auto].
  destruct (bool_decide _).
  - unfold bind at 1.
    pose proof (get_prices_sent [c :: base_id] [nrm group3] w1) as H2.
    destruct (get_prices _ _ w1) as [[P|e] w2]; cbn [snd] in H2;
      [|apply Hraise; congruence].
    destruct (price_of _ _ _); apply Hreply; congruence.
  - unfold bind at 1.
    pose proof (symbol_to_id_sent (nrm group3) w1) as H2.
    destruct (symbol_to_id (nrm group3) w1) as [[r|e] w2]; cbn [snd] in H2;
      [|apply Hraise; congruence].
    destruct r as [[|d quote_id]|]; [apply Hreply; congruence| |apply Hreply; congruence].
    unfold bind at 1.
    pose proof (get_prices_sent [c :: base_id; d :: quote_id] [lit "usd"] w2) as H3.
    destruct (get_prices _ _ w2) as [[P|e] w3]; cbn [snd] in H3;
      [|apply Hraise; congruence].
    destruct (_ || _); [apply Hreply; congruence|].
    unfold bind, py_float, truediv, ret, raise.
    destruct (price_of P (c :: base_id) _) as [b|]; [|apply Hraise; congruence].
    destruct (price_of P (d :: quote_id) _) as [q|]; [|apply Hraise; congruence].
    destruct (q =? 0)%float; [apply Hraise; congruence|].
    apply Hreply; congruence.
Qed.

(** ** What a run can raise *)






(** ** How many requests a run issues *)

Lemma asks_weaken {A} (n n' : nat) (m : M A) : (n <= n')%nat -> asks n m -> asks n' m.
Proof.
  intros Hn Hm w. destruct (Hm w) as (extra & He & Hl).
  exists extra. split; [exact He|lia].
Qed.

Lemma asks_ret {A} (a : A) : asks 0 (ret a).
Proof. intros w. exists []. rewrite app_nil_r. split; [reflexivity|cbn; lia]. Qed.

Lemma asks_raise {A} (e : exn) : asks 0 (raise (A := A) e).
Proof. intros w. exists []. rewrite app_nil_r. split; [reflexivity|cbn; lia]. Qed.

Lemma asks_bind {A B} (n k : nat) (m : M A) (f : A -> M B) :
  asks n m -> (forall a, asks k (f a)) -> asks (n + k) (bind m f).
Proof.
  intros Hm Hf w. unfold bind. destruct (Hm w) as (ex1 & He1 & Hl1).
  destruct (m w) as [[a|e] w1]; cbn [snd] in *.
  - destruct (Hf a w1) as (ex2 & He2 & Hl2).
    exists (ex1 ++ ex2). rewrite He2, He1, app_assoc, length_app. split; [reflexivity|lia].
  - exists ex1. split; [exact He1|lia].
Qed.

Lemma asks_fetch_json {A} (ep : remote -> nat -> params -> answer A) url ps :
  asks 1 (fetch_json ep url ps).
Proof.
  intros w. exists [(url, ps)]. split; [|cbn; lia].
  unfold fetch_json.
  destruct (outcome _) as [what|status text [x|]]; [|destruct (negb _)..]; reflexivity.
Qed.

Lemma asks_symbol_to_id (symbol : str) : asks 1 (symbol_to_id symbol).
Proof.
  unfold symbol_to_id. cbv zeta.
  destruct (nrm symbol) as [|c key]; [apply (asks_weaken 0); [lia|apply asks_ret]|].
  destruct (COMMON_IDS !! (c :: key)); [apply (asks_weaken 0); [lia|apply asks_ret]|].
  apply (asks_bind 0 1).
  { intros w. exists []. rewrite app_nil_r. split; [reflexivity|cbn; lia]. }
  intros [|].
  - intros w. exists []. rewrite app_nil_r. split; [|cbn; lia].
    unfold symbol_cache_getitem. destruct (getitem _ _ _) as [r l]. reflexivity.
  - apply (asks_bind 1 0); [apply asks_fetch_json|]. intros coins.
    apply (asks_bind 0 0).
    + destruct (sort_by _ _) as [|c0 rest]; [apply asks_ret|].
      destruct (c0 !! lit "id"); [apply asks_ret|apply asks_raise].
    + intros chosen. apply (asks_bind 0 0); [|intros; apply asks_ret].
      intros w. exists []. rewrite app_nil_r. split; [|cbn; lia].
      unfold symbol_cache_setitem. destruct (setitem _ _ _ _ _); reflexivity.
Qed.

Lemma asks_get_prices (ids vs : list str) : asks 1 (get_prices ids vs).
Proof.
  unfold get_prices. cbv zeta.
  apply (asks_bind 0 1).
  { intros w. exists []. rewrite app_nil_r. split; [reflexivity|cbn; lia]. }
  intros [|].
  - intros w. exists []. rewrite app_nil_r. split; [|cbn; lia].
    unfold price_cache_getitem. destruct (getitem _ _ _) as [r l]. reflexivity.
  - apply (asks_bind 1 0); [apply asks_fetch_json|]. intros data.
    apply (asks_bind 0 0); [|intros; apply asks_ret].
    intros w. exists []. rewrite app_nil_r. split; [|cbn; lia].
    unfold price_cache_setitem. destruct (setitem _ _ _ _ _); reflexivity.
Qed.

Lemma asks_reply_text (m : message) : asks 0 (reply_text m).
Proof. intros w. exists []. rewrite app_nil_r. split; [reflexivity|cbn; lia]. Qed.

(** X12. One run of the handler only appends to the log of requests, and
    appends at most three (two lookups of the asset list and one price
    fetch); with a fiat quote at most two.  Nothing is retried. *)
Theorem handle_message_requests (amt : float) (group2 group3 : str) :
  asks 3 (handle_message amt group2 group3) /\
  (nrm group3 ∈ FIAT_WHITELIST -> asks 2 (handle_message amt group2 group3)).
Proof.
  assert (Hfiat : forall base_id,
             asks 1 (prices <- get_prices [base_id] [nrm group3] ;;
                     match price_of prices base_id (nrm group3) with
                     | None => reply_text PriceUnavailable
                     | Some p =>
                         reply_text (Converted amt (nrm group2) (amt * p)%float (nrm group3) p)
                     end)).
  { intros base_id. apply (asks_bind 1 0); [apply asks_get_prices|]. intros P.
    destruct (price_of _ _ _); apply asks_reply_text. }
  split.
  - unfold handle_message. cbv zeta.
    apply (asks_bind 1 2); [apply asks_symbol_to_id|].
    intros [[|c base_id]|];
      [apply (asks_weaken 0); [lia|apply asks_reply_text]|
      |apply (asks_weaken 0); [lia|apply asks_reply_text]].
    destruct (bool_decide _); [apply (asks_weaken 1); [lia|apply Hfiat]|].
    apply (asks_bind 1 1); [apply asks_symbol_to_id|].
    intros [[|d quote_id]|];
      [apply (asks_weaken 0); [lia|apply asks_reply_text]|
      |apply (asks_weaken 0); [lia|apply asks_reply_text]].
    apply (asks_bind 1 0); [apply asks_get_prices|]. intros P.
    destruct (_ || _); [apply asks_reply_text|].
    apply (asks_bind 0 0);
      [destruct (price_of _ _ _); [apply asks_ret|apply asks_raise]|]. intros b.
    apply (asks_bind 0 0);
      [destruct (price_of _ _ _); [apply asks_ret|apply asks_raise]|]. intros q.
    apply (asks_bind 0 0); [|intros; apply asks_reply_text].
    unfold truediv. destruct (q =? 0)%float; [apply asks_raise|apply asks_ret].
  - intros Hq. unfold handle_message. cbv zeta.
    rewrite (bool_decide_eq_true_2 _ Hq).
    apply (asks_bind 1 1); [apply asks_symbol_to_id|].
    intros [[|c base_id]|];
      [apply (asks_weaken 0); [lia|apply asks_reply_text]|
      |apply (asks_weaken 0); [lia|apply asks_reply_text]].
    apply Hfiat.
Qed.

Lemma handle_message_requests_witness :
  (nrm (lit "usd") ∈ FIAT_WHITELIST) /\
  asks 2 (handle_message 1 (lit "pepe") (lit "usd")) /\
  length (requests (snd (handle_message 1 (lit "pepe") (lit "usd") listing))) = 2%nat.
Proof.
  assert (Hq : nrm (lit "usd") ∈ FIAT_WHITELIST) by (vm_compute; reflexivity).
  split_and!; [exact Hq | | vm_compute; reflexivity].
  exact (proj2 (handle_message_requests 1 (lit "pepe") (lit "usd")) Hq).
Defined.

(** ** The size of the caches *)

Section LinksSize.
Context {V : Type}.
Implicit Types (l : links V) (k : str) (v : V) (t : Z).

Lemma remove_length k l : (length (remove k l) <= length l)%nat.
Proof. unfold remove. apply List.filter_length_le. Qed.

Lemma remove_found_length k l x :
  find k l = Some x -> (length (remove k l) < length l)%nat.
Proof.
  unfold find, remove.
  induction l as [|[k' y] l IH]; cbn; [discriminate|].
  destruct (bool_decide (k' = k)); cbn.
  - intros _. pose proof (List.filter_length_le
      (fun e : str * (V * Z) => negb (bool_decide (fst e = k))) l). lia.
  - intros H. specialize (IH H). lia.
Qed.

Lemma expire_length t l : (length (expire t l) <= length l)%nat.
Proof. unfold expire. apply List.filter_length_le. Qed.

Lemma getitem_length t k l : (length (snd (getitem t k l)) <= length l)%nat.
Proof.
  unfold getitem. destruct (find k l) as [[v e]|] eqn:Hf; cbn; [|lia].
  rewrite length_app. cbn. pose proof (remove_found_length _ _ _ Hf). lia.
Qed.

Lemma setitem_length (c : TTLCache) t k v l l' :
  setitem c t k v l = Some l' ->
  Z.of_nat (length l) <= maxsize c ->
  Z.of_nat (length l') <= maxsize c.
Proof.
  unfold setitem. destruct (maxsize c <? 1) eqn:Hm; [discriminate|].
  apply Z.ltb_ge in Hm. intros [= <-] Hl.
  pose proof (expire_length t l) as He.
  rewrite length_app. cbn [length].
  destruct (find k (expire t l)) as [x|] eqn:Hf.
  - pose proof (remove_found_length _ _ _ Hf). lia.
  - pose proof (remove_length k
      (drop (Z.to_nat (Z.of_nat (length (expire t l)) + 1 - maxsize c)) (expire t l))) as Hr.
    rewrite length_drop in Hr. lia.
Qed.
End LinksSize.

(** X13. The caches stay within their capacity of 5000 items: a run of the
    handler that starts with both caches within [maxsize] ends with both
    caches within [maxsize], whether it returns or raises. *)
Theorem caches_stay_bounded (amt : float) (group2 group3 : str) (w : world) :
  bounded w -> bounded (snd (handle_message amt group2 group3 w)).
Proof.
  apply (handle_message_preserves (fun a b => bounded a -> bounded b)); clear w;
    unfold bounded.
  - auto.
  - auto.
  - intros k w H. exact H.
  - intros k w [Hs Hp]. unfold symbol_cache_getitem.
    pose proof (getitem_length (now w) k (symbol_links w)) as Hl.
    destruct (getitem _ _ _) as [r l]. cbn in *. split; [lia|exact Hp].
  - intros k v w [Hs Hp]. unfold symbol_cache_setitem.
    destruct (setitem _ _ _ _ _) as [l|] eqn:E; cbn; [|auto].
    split; [exact (setitem_length _ _ _ _ _ _ E Hs)|exact Hp].
  - intros k w H. exact H.
  - intros k w [Hs Hp]. unfold price_cache_getitem.
    pose proof (getitem_length (now w) k (price_links w)) as Hl.
    destruct (getitem _ _ _) as [r l]. cbn in *. split; [exact Hs|lia].
  - intros k v w [Hs Hp]. unfold price_cache_setitem.
    destruct (setitem _ _ _ _ _) as [l|] eqn:E; cbn; [|auto].
    split; [exact Hs|exact (setitem_length _ _ _ _ _ _ E Hp)].
  - intros A ep url ps w H. unfold fetch_json.
    destruct (outcome _) as [what|status text [x|]]; [|destruct (negb _)..]; exact H.
  - intros m w H. exact H.
Qed.

Lemma caches_stay_bounded_witness :
  bounded listing /\ bounded (snd (handle_message 1 (lit "pepe") (lit "usd") listing)).
Proof.
  assert (H : bounded listing) by (split; cbn; lia).
  split; [exact H|].
  exact (caches_stay_bounded 1 (lit "pepe") (lit "usd") listing H).
Defined.

(** ** Expiry and reuse of cache entries *)

Lemma fetch_json_requests {A} (ep : remote -> nat -> params -> answer A) url ps w :
  requests (snd (fetch_json ep url ps w)) = requests w ++ [(url, ps)].
Proof.
  unfold fetch_json.
  destruct (outcome _) as [what|status text [x|]]; [|destruct (negb _)..]; reflexivity.
Qed.

(** X14. An entry of the symbol cache whose expiry time has been reached is
    not used: the resolver asks the remote again (exactly one request, for
    the asset list), and when that lookup succeeds its result replaces the
    stale entry, with a new expiry 12 hours after the store. *)
Theorem expired_entry_refetched (symbol : str) (w : world) (v : option str) (e : Z) :
  nrm symbol <> [] ->
  COMMON_IDS !! nrm symbol = None ->
  find (nrm symbol) (symbol_links w) = Some (v, e) ->
  e <= now w ->
  requests (snd (symbol_to_id symbol w)) = requests w ++ [coins_request] /\
  forall v' w1,
    symbol_to_id symbol w = (Ok v', w1) ->
    find (nrm symbol) (symbol_links w1) = Some (v', now w1 + 60 * 60 * 12 * second).
Proof.
  intros Hk Hc Hf He.
  assert (Hmiss : contains (now w) (nrm symbol) (symbol_links w) = false).
  { unfold contains. rewrite Hf. apply Z.ltb_ge. exact He. }
  rewrite (symbol_to_id_miss _ _ Hk Hc Hmiss). unfold bind.
  pose proof (fetch_json_requests coins_list (COINGECKO_API ++ lit "/coins/list")
                [(lit "include_platform", lit "false")]
                (set_symbol_links (symbol_links w) (Contains SymbolCache (nrm symbol)) w))
    as Hreq.
  destruct (fetch_json _ _ _ _) as [[coins|err] wf]; cbn [snd] in Hreq;
    [|split; [exact Hreq|discriminate]].
  destruct (match sort_by coin_leb (candidates (nrm symbol) coins) with
            | [] => ret None
            | c :: _ => fun v => (id_of c, v)
            end wf) as [[chosen|err] wc] eqn:Hch.
  - assert (wc = wf) as ->.
    { destruct (sort_by _ _); unfold ret in Hch; congruence. }
    unfold symbol_cache_setitem.
    destruct (setitem symbol_cache (now wf) (nrm symbol) chosen (symbol_links wf))
      as [l'|] eqn:Hset; cbn.
    + split; [exact Hreq|]. intros v' w1 [= <- <-].
      exact (setitem_stored _ _ _ _ _ _ Hset).
    + split; [exact Hreq|discriminate].
  - assert (wc = wf) as ->.
    { destruct (sort_by _ _); unfold ret in Hch; congruence. }
    split; [exact Hreq|discriminate].
Qed.

Lemma expired_entry_refetched_witness :
  find (nrm (lit "pepe")) (symbol_links stale) = Some (Some (lit "pepe-old"), 43200 * second) /\
  43200 * second <= now stale /\
  requests (snd (symbol_to_id (lit "pepe") stale)) = [coins_request] /\
  fst (symbol_to_id (lit "pepe") stale) = Ok (Some (lit "pepe")).
Proof.
  assert (Hf : find (nrm (lit "pepe")) (symbol_links stale) =
               Some (Some (lit "pepe-old"), 43200 * second)) by reflexivity.
  assert (He : 43200 * second <= now stale) by (vm_compute; discriminate).
  assert (Hk : nrm (lit "pepe") <> []) by (vm_compute; discriminate).
  assert (Hc : COMMON_IDS !! nrm (lit "pepe") = None) by (vm_compute; reflexivity).
  split_and!; [exact Hf | exact He | | vm_compute; reflexivity].
  exact (proj1 (expired_entry_refetched (lit "pepe") stale _ _ Hk Hc Hf He)).
Defined.

(** X15. Price-cache coherence: a successful price fetch leaves its table
    stored under the cache key with an expiry time still ahead, and in any
    world whose price cache still holds that entry before it expires, the
    same call returns the same table and issues no request. *)
Theorem price_cache_coherence (ids vs : list str) (w w1 : world) (data : prices) :
  get_prices ids vs w = (Ok data, w1) ->
  exists expires,
    find (cache_key ids vs) (price_links w1) = Some (data, expires) /\
    now w1 < expires /\
    forall w2,
      find (cache_key ids vs) (price_links w2) = Some (data, expires) ->
      now w2 < expires ->
      exists w3, get_prices ids vs w2 = (Ok data, w3) /\ requests w3 = requests w2.
Proof.
  intros Hrun. apply get_prices_stores in Hrun as (e & Hf & Ht).
  exists e. split_and!; [exact Hf | exact Ht |].
  intros w2 Hf2 Ht2. rewrite (get_prices_hit _ _ _ _ _ Hf2 Ht2).
  eexists. split; reflexivity.
Qed.

Lemma price_cache_coherence_witness :
  get_prices [lit "bitcoin"] [lit "usd"] (pricing btc_usd) =
    (Ok btc_usd, fetched [lit "bitcoin"] [lit "usd"] (pricing btc_usd)) /\
  exists w3,
    get_prices [lit "bitcoin"] [lit "usd"]
      (fetched [lit "bitcoin"] [lit "usd"] (pricing btc_usd)) = (Ok btc_usd, w3) /\
    requests w3 = requests (fetched [lit "bitcoin"] [lit "usd"] (pricing btc_usd)).
Proof.
  assert (Hrun : get_prices [lit "bitcoin"] [lit "usd"] (pricing btc_usd) =
                 (Ok btc_usd, fetched [lit "bitcoin"] [lit "usd"] (pricing btc_usd)))
    by reflexivity.
  split; [exact Hrun|].
  destruct (price_cache_coherence _ _ _ _ _ Hrun) as (e & Hf & Ht & Hagain).
  exact (Hagain _ Hf Ht).
Defined.

(** ** The crypto rendering *)

Lemma rstrip_last (chars s r : str) (c : N) :
  rstrip chars s = r ++ [c] -> c ∉ chars.
Proof.
  revert r. induction s as [|a s IH]; intros r; cbn.
  - destruct r; discriminate.
  - fold (rstrip chars s). destruct (rstrip chars s) as [|b acc] eqn:E.
    + destruct (bool_decide (a ∈ chars)) eqn:Ha.
      * destruct r; discriminate.
      * destruct r as [|x [|y r]]; try discriminate.
        intros [= ->]. apply bool_decide_eq_false in Ha. exact Ha.
    + destruct r as [|x r]; [discriminate|].
      intros [= -> H]. exact (IH r H).
Qed.

Lemma rstrip_prefix (chars s : str) :
  exists t, s = rstrip chars s ++ t /\ Forall (fun c => c ∈ chars) t.
Proof.
  induction s as [|a s (t & Hs & Ht)]; cbn.
  - exists []. split; [reflexivity|constructor].
  - fold (rstrip chars s). destruct (rstrip chars s) as [|b acc] eqn:E.
    + destruct (bool_decide (a ∈ chars)) eqn:Ha.
      * apply bool_decide_eq_true in Ha. exists (a :: t). cbn in Hs.
        split; [cbn; congruence|constructor; assumption].
      * exists t. cbn in *. split; [congruence|exact Ht].
    + exists t. split; [cbn; cbn in Hs; congruence|exact Ht].
Qed.

(** X16. With a crypto quote the rendering never ends in a decimal point,
    and it is the six- or ten-decimal rendering with only "0" and "."
    characters taken off its end. *)
Theorem crypto_rendering_trimmed (x : float) (quote : str) :
  nrm quote ∉ FIAT_WHITELIST ->
  (forall r, fmt x quote <> r ++ lit ".") /\
  exists prec t,
    (prec = 6%nat \/ prec = 10%nat) /\
    format_f false prec x = fmt x quote ++ t /\
    Forall (fun c => c = 48%N \/ c = 46%N) t.
Proof.
  intros Hq. unfold fmt. rewrite (bool_decide_eq_false_2 _ Hq).
  assert (H : forall s,
             (forall r, rstrip (lit ".") (rstrip (lit "0") s) <> r ++ lit ".") /\
             exists t, s = rstrip (lit ".") (rstrip (lit "0") s) ++ t /\
                       Forall (fun c => c = 48%N \/ c = 46%N) t).
  { intros s. split.
    - intros r Hr. apply rstrip_last in Hr. apply Hr. left.
    - destruct (rstrip_prefix (lit "0") s) as (t0 & H0 & F0).
      destruct (rstrip_prefix (lit ".") (rstrip (lit "0") s)) as (t1 & H1 & F1).
      exists (t1 ++ t0). split.
      + rewrite app_assoc, <- H1. exact H0.
      + apply Forall_app. split.
        * eapply Forall_impl; [exact F1|]. intros c Hc.
          apply list_elem_of_singleton in Hc. auto.
        * eapply Forall_impl; [exact F0|]. intros c Hc.
          apply list_elem_of_singleton in Hc. auto. }
  destruct (1 <=? x)%float.
  - destruct (H (format_f false 6 x)) as [H1 (t & H2 & H3)].
    split; [exact H1|]. exists 6%nat, t. auto.
  - destruct (H (format_f false 10 x)) as [H1 (t & H2 & H3)].
    split; [exact H1|]. exists 10%nat, t. auto.
Qed.

Lemma crypto_rendering_trimmed_witness :
  (nrm (lit "sol") ∉ FIAT_WHITELIST) /\
  fmt 200 (lit "sol") = lit "200" /\
  format_f false 6 200 = lit "200.000000" /\
  (forall r, fmt 200 (lit "sol") <> r ++ lit ".").
Proof.
  assert (Hq : nrm (lit "sol") ∉ FIAT_WHITELIST) by (vm_compute; discriminate).
  split_and!; [exact Hq | vm_compute; reflexivity | vm_compute; reflexivity |].
  exact (proj1 (crypto_rendering_trimmed 200 (lit "sol") Hq)).
Defined.

(** ** The choice among candidates *)

(** The result of a resolution that asks the remote and receives [coins]. *)
Lemma symbol_to_id_remote (symbol : str) (w : world) (text : str) (coins : list coin) :
  nrm symbol <> [] ->
  COMMON_IDS !! nrm symbol = None ->
  contains (now w) (nrm symbol) (symbol_links w) = false ->
  outcome (coins_list (net w) (length (requests w))
             [(lit "include_platform", lit "false")]) = Response 200 text (Some coins) ->
  fst (symbol_to_id symbol w) =
  match sort_by coin_leb (candidates (nrm symbol) coins) with
  | [] => Ok None
  | c :: _ => id_of c
  end.
Proof.
  intros Hk Hc Hmiss Hok.
  rewrite (symbol_to_id_miss _ _ Hk Hc Hmiss). unfold bind.
  pose proof (fetch_json_ok coins_list (COINGECKO_API ++ lit "/coins/list") _
                (set_symbol_links (symbol_links w) (Contains SymbolCache (nrm symbol)) w)
                text coins Hok) as Hr.
  destruct (fetch_json _ _ _ _) as [r wf]. cbn in Hr. subst r.
  assert (Hstore : forall chosen,
             fst (let (r0, w'0) := symbol_cache_setitem (nrm symbol) chosen wf in
                  match r0 with
                  | Ok _ => ret chosen w'0
                  | Raise e => (Raise e, w'0)
                  end) = Ok chosen).
  { intros chosen. unfold symbol_cache_setitem.
    destruct (setitem_room symbol_cache (now wf) (nrm symbol) chosen (symbol_links wf))
      as [l' ->]; [cbn; lia|]. reflexivity. }
  destruct (sort_by coin_leb (candidates (nrm symbol) coins)) as [|c rest].
  - unfold ret at 1. apply Hstore.
  - destruct (id_of c) as [chosen|err]; [apply Hstore|reflexivity].
Qed.

Lemma filter_Permutation {A} (f : A -> bool) (l l' : list A) :
  l ≡ₚ l' -> List.filter f l ≡ₚ List.filter f l'.
Proof.
  induction 1 as [|x l l' _ IH|x y l|l1 l2 l3 _ IH1 _ IH2]; cbn.
  - reflexivity.
  - destruct (f x); [constructor|]; exact IH.
  - destruct (f x), (f y); try reflexivity. apply Permutation_swap.
  - etransitivity; eassumption.
Qed.

Lemma candidates_Permutation (key : str) (coins coins' : list coin) :
  coins ≡ₚ coins' -> candidates key coins ≡ₚ candidates key coins'.
Proof.
  intros Hp. unfold candidates.
  pose proof (filter_Permutation
                (fun c => bool_decide (nrm (dict_get c (lit "symbol") []) = key)) _ _ Hp) as Hs.
  pose proof (filter_Permutation
                (fun c => bool_decide (nrm (dict_get c (lit "name") []) = key)) _ _ Hp) as Hn.
  fold (symbol_matches key coins) (symbol_matches key coins') in Hs.
  fold (name_matches key coins) (name_matches key coins') in Hn.
  destruct (symbol_matches key coins) as [|a l] eqn:E1,
           (symbol_matches key coins') as [|b l'] eqn:E2.
  - exact Hn.
  - apply Permutation_nil_l in Hs. discriminate.
  - apply Permutation_nil_r in Hs. discriminate.
  - exact Hs.
Qed.

(** X17. The choice does not depend on the order in which the remote lists
    the assets: when every record has an "id", two remote lookups of the
    same ticker that receive the same records in different orders give the
    same result. *)
Theorem selection_ignores_list_order (symbol : str) (w w' : world) (text text' : str)
    (coins coins' : list coin) :
  nrm symbol <> [] ->
  COMMON_IDS !! nrm symbol = None ->
  contains (now w) (nrm symbol) (symbol_links w) = false ->
  contains (now w') (nrm symbol) (symbol_links w') = false ->
  outcome (coins_list (net w) (length (requests w))
             [(lit "include_platform", lit "false")]) = Response 200 text (Some coins) ->
  outcome (coins_list (net w') (length (requests w'))
             [(lit "include_platform", lit "false")]) = Response 200 text' (Some coins') ->
  coins ≡ₚ coins' ->
  (forall c, c ∈ coins -> is_Some (c !! lit "id")) ->
  fst (symbol_to_id symbol w) = fst (symbol_to_id symbol w').
Proof.
  intros Hk Hc Hm Hm' Hok Hok' Hp Hid.
  rewrite (symbol_to_id_remote _ _ _ _ Hk Hc Hm Hok).
  rewrite (symbol_to_id_remote _ _ _ _ Hk Hc Hm' Hok').
  pose proof (candidates_Permutation (nrm symbol) _ _ Hp) as Hcp.
  destruct (sort_by coin_leb (candidates (nrm symbol) coins)) as [|c rest] eqn:E,
           (sort_by coin_leb (candidates (nrm symbol) coins')) as [|c' rest'] eqn:E'.
  - reflexivity.
  - apply sort_by_nil in E. rewrite E in Hcp.
    apply Permutation_nil_l in Hcp.
    first [rewrite Hcp in E' | rewrite <- Hcp in E']. discriminate.
  - apply sort_by_nil in E'. rewrite E' in Hcp.
    apply Permutation_nil_r in Hcp.
    first [rewrite Hcp in E | rewrite <- Hcp in E]. discriminate.
  - destruct (sort_by_head coin_leb coin_leb_total coin_leb_trans _ _ _ E) as [Hin Hmin].
    destruct (sort_by_head coin_leb coin_leb_total coin_leb_trans _ _ _ E') as [Hin' Hmin'].
    assert (H1 : ranks_le c c').
    { apply coin_leb_ranks, Hmin. rewrite Hcp. exact Hin'. }
    assert (H2 : ranks_le c' c).
    { apply coin_leb_ranks, Hmin'. rewrite <- Hcp. exact Hin. }
    assert (Heq : dict_get c (lit "id") [] = dict_get c' (lit "id") []).
    { destruct H1 as [H1|[E1 L1]], H2 as [H2|[E2 L2]]; try lia.
      apply str_leb_le in L1, L2. exact (str_lem_antisym _ _ L1 L2). }
    assert (Hc1 : c ∈ coins) by (apply (candidates_spec (nrm symbol)) in Hin; tauto).
    assert (Hc2 : c' ∈ coins).
    { rewrite Hp. apply (candidates_spec (nrm symbol)) in Hin'. tauto. }
    destruct (Hid c Hc1) as [i Hi]. destruct (Hid c' Hc2) as [i' Hi'].
    unfold id_of. unfold dict_get in Heq. rewrite Hi, Hi' in *. cbn in Heq. congruence.
Qed.

Lemma selection_ignores_list_order_witness :
  rev pepes ≡ₚ pepes /\
  fst (symbol_to_id (lit "PEPE")
         (startup (steady (Response 200 [] (Some (rev pepes))) (NoResponse [])))) =
  fst (symbol_to_id (lit "PEPE") listing).
Proof.
  assert (Hp : rev pepes ≡ₚ pepes) by (symmetry; apply Permutation_rev).
  split; [exact Hp|].
  refine (selection_ignores_list_order (lit "PEPE") _ listing [] [] (rev pepes) pepes
            _ _ _ _ _ _ Hp _).
  - vm_compute. discriminate.
  - vm_compute. reflexivity.
  - reflexivity.
  - reflexivity.
  - reflexivity.
  - reflexivity.
  - intros c Hc. apply elem_of_reverse in Hc.
    repeat (apply elem_of_cons in Hc as [-> | Hc]; [eexists; vm_compute; reflexivity|]).
    apply elem_of_nil in Hc. contradiction.
Defined.

(** ** Stale prices and remembered misses *)

(** A price fetch that has to ask the remote. *)
Lemma get_prices_miss (ids vs : list str) (w : world) :
  contains (now w) (cache_key ids vs) (price_links w) = false ->
  get_prices ids vs w =
  (data <- fetch_json simple_price (COINGECKO_API ++ lit "/simple/price")
             [ (lit "ids", join (lit ",") ids);
               (lit "vs_currencies", join (lit ",") vs);
               (lit "precision", lit "full") ] ;;
   price_cache_setitem (cache_key ids vs) data ;;;
   ret data)
    (set_price_links (price_links w) (Contains PriceCache (cache_key ids vs)) w).
Proof.
  intros Hmiss. unfold get_prices. cbv zeta.
  unfold bind at 1. unfold price_cache_contains. rewrite Hmiss. reflexivity.
Qed.

Lemma fetch_json_ok_inv {A} (ep : remote -> nat -> params -> answer A) url ps w v :
  fst (fetch_json ep url ps w) = Ok v ->
  exists text, outcome (ep (net w) (length (requests w)) ps) = Response 200 text (Some v).
Proof.
  unfold fetch_json.
  destruct (outcome _) as [what|status text [x|]]; [discriminate| |].
  - destruct (negb (status =? 200)) eqn:E; [discriminate|].
    apply negb_false_iff, Z.eqb_eq in E. subst status.
    intros [= ->]. eauto.
  - destruct (negb (status =? 200)); discriminate.
Qed.

(** X18. A price table whose expiry time has been reached is never served:
    the fetcher issues exactly one request, and when it succeeds the table
    it returns is the one the remote has just sent, stored with an expiry
    60 seconds after the store. *)
Theorem expired_prices_refetched (ids vs : list str) (w : world) (old : prices) (e : Z) :
  find (cache_key ids vs) (price_links w) = Some (old, e) ->
  e <= now w ->
  (exists req, requests (snd (get_prices ids vs w)) = requests w ++ [req]) /\
  forall data w1,
    get_prices ids vs w = (Ok data, w1) ->
    (exists text,
       outcome (simple_price (net w) (length (requests w))
                  [ (lit "ids", join (lit ",") ids);
                    (lit "vs_currencies", join (lit ",") vs);
                    (lit "precision", lit "full") ]) = Response 200 text (Some data)) /\
    find (cache_key ids vs) (price_links w1) = Some (data, now w1 + 60 * second).
Proof.
  intros Hf He.
  assert (Hmiss : contains (now w) (cache_key ids vs) (price_links w) = false).
  { unfold contains. rewrite Hf. apply Z.ltb_ge. exact He. }
  rewrite (get_prices_miss _ _ _ Hmiss). unfold bind.
  pose proof (fetch_json_requests simple_price (COINGECKO_API ++ lit "/simple/price")
                [ (lit "ids", join (lit ",") ids);
                  (lit "vs_currencies", join (lit ",") vs);
                  (lit "precision", lit "full") ]
                (set_price_links (price_links w) (Contains PriceCache (cache_key ids vs)) w))
    as Hreq.
  pose proof (fetch_json_ok_inv simple_price (COINGECKO_API ++ lit "/simple/price")
                [ (lit "ids", join (lit ",") ids);
                  (lit "vs_currencies", join (lit ",") vs);
                  (lit "precision", lit "full") ]
                (set_price_links (price_links w) (Contains PriceCache (cache_key ids vs)) w))
    as Hok.
  destruct (fetch_json _ _ _ _) as [[d|err] wf]; cbn [fst snd] in Hreq, Hok.
  - unfold price_cache_setitem.
    destruct (setitem price_cache (now wf) (cache_key ids vs) d (price_links wf))
      as [l'|] eqn:Hset; unfold ret; cbn [fst snd].
    + split; [eauto|]. intros data w1 Heq.
      injection Heq as Hd Hw. subst data w1.
      split; [apply Hok; reflexivity|].
      exact (setitem_stored _ _ _ _ _ _ Hset).
    + split; [eauto|discriminate].
  - split; [eauto|discriminate].
Qed.

Lemma expired_prices_refetched_witness :
  find (cache_key [lit "bitcoin"] [lit "usd"]) (price_links stale_prices) =
    Some (btc_old, 60 * second) /\
  60 * second <= now stale_prices /\
  (exists req,
     requests (snd (get_prices [lit "bitcoin"] [lit "usd"] stale_prices)) =
     requests stale_prices ++ [req]) /\
  fst (get_prices [lit "bitcoin"] [lit "usd"] stale_prices) = Ok btc_usd.
Proof.
  assert (Hf : find (cache_key [lit "bitcoin"] [lit "usd"]) (price_links stale_prices) =
               Some (btc_old, 60 * second)) by reflexivity.
  assert (He : 60 * second <= now stale_prices) by (vm_compute; discriminate).
  split_and!; [exact Hf | exact He | | reflexivity].
  exact (proj1 (expired_prices_refetched [lit "bitcoin"] [lit "usd"] stale_prices _ _ Hf He)).
Defined.

Lemma symbol_to_id_stores (symbol : str) (w w1 : world) (v : option str) :
  COMMON_IDS !! nrm symbol = None ->
  nrm symbol <> [] ->
  symbol_to_id symbol w = (Ok v, w1) ->
  exists e, find (nrm symbol) (symbol_links w1) = Some (v, e) /\ now w1 < e.
Proof.
  intros Hc Hk Hrun.
  destruct (contains (now w) (nrm symbol) (symbol_links w)) eqn:Hit.
  - apply contains_inv in Hit as (v0 & e & Hf & Ht).
    rewrite (symbol_to_id_hit _ _ _ _ Hk Hc Hf Ht) in Hrun.
    injection Hrun as -> <-.
    exists e. split; [apply find_stored | exact Ht].
  - rewrite (symbol_to_id_miss _ _ Hk Hc Hit) in Hrun.
    unfold bind in Hrun.
    destruct (fetch_json _ _ _ _) as [[coins|err] wf]; [|discriminate].
    destruct (match sort_by coin_leb (candidates (nrm symbol) coins) with
              | [] => ret None
              | c :: _ => fun v => (id_of c, v)
              end wf) as [[chosen|err] wc] eqn:Hch; [|discriminate].
    assert (wc = wf) as ->.
    { destruct (sort_by _ _); unfold ret in Hch; congruence. }
    unfold symbol_cache_setitem in Hrun.
    destruct (setitem symbol_cache (now wf) (nrm symbol) chosen (symbol_links wf))
      as [l'|] eqn:Hset; [|discriminate].
    cbn in Hrun. injection Hrun as -> <-.
    exists (now wf + ttl symbol_cache).
    split; [exact (setitem_stored _ _ _ _ _ _ Hset)|].
    cbn [now set_symbol_links]. pose proof symbol_cache_ttl. lia.
Qed.

(** X19. A miss is remembered: once a base ticker without shortcut has been
    resolved to None, the None is in the symbol cache with an expiry still
    ahead, and until then every message with that base ticker, whatever the
    amount and the quote, is answered "Unknown base asset" without any
    request, as long as the cache still holds the entry. *)
Theorem unknown_base_remembered (group2 : str) (w w1 : world) :
  COMMON_IDS !! nrm group2 = None ->
  nrm group2 <> [] ->
  symbol_to_id (nrm group2) w = (Ok None, w1) ->
  exists expires,
    find (nrm group2) (symbol_links w1) = Some (None, expires) /\
    now w1 < expires /\
    forall (amt : float) (group3 : str) (w2 : world),
      find (nrm group2) (symbol_links w2) = Some (None, expires) ->
      now w2 < expires ->
      exists w3,
        handle_message amt group2 group3 w2 = reply_text (UnknownBase group2) w3 /\
        requests w3 = requests w2.
Proof.
  intros Hc Hk Hrun.
  rewrite symbol_to_id_nrm in Hrun.
  destruct (symbol_to_id_stores _ _ _ _ Hc Hk Hrun) as (e & Hf & Ht).
  exists e. split_and!; [exact Hf | exact Ht |].
  intros amt group3 w2 Hf2 Ht2.
  pose proof (symbol_to_id_hit _ _ _ _ Hk Hc Hf2 Ht2) as Hhit.
  rewrite <- symbol_to_id_nrm in Hhit.
  eexists. split.
  - unfold handle_message. cbv zeta. unfold bind at 1. rewrite Hhit. reflexivity.
  - reflexivity.
Qed.

Lemma unknown_base_remembered_witness :
  symbol_to_id (nrm (lit "zzzznotacoin")) listing =
    (Ok None, snd (symbol_to_id (lit "zzzznotacoin") listing)) /\
  exists w3,
    handle_message 5 (lit "zzzznotacoin") (lit "eur")
      (snd (symbol_to_id (lit "zzzznotacoin") listing)) =
      reply_text (UnknownBase (lit "zzzznotacoin")) w3 /\
    requests w3 = requests (snd (symbol_to_id (lit "zzzznotacoin") listing)).
Proof.
  assert (Hrun : symbol_to_id (nrm (lit "zzzznotacoin")) listing =
                 (Ok None, snd (symbol_to_id (lit "zzzznotacoin") listing)))
    by (vm_compute; reflexivity).
  assert (Hc : COMMON_IDS !! nrm (lit "zzzznotacoin") = None) by (vm_compute; reflexivity).
  assert (Hk : nrm (lit "zzzznotacoin") <> []) by (vm_compute; discriminate).
  split; [exact Hrun|].
  destruct (unknown_base_remembered (lit "zzzznotacoin") listing _ Hc Hk Hrun)
    as (e & Hf & Ht & Hagain).
  exact (Hagain 5%float (lit "eur") _ Hf Ht).
Defined.

(** ** Labels *)

(** X20. The replies show a ticker as the uppercased key; typed back, such
    a label normalizes to the key it came from. *)
Theorem label_round_trip (s : str) : nrm (upper (nrm s)) = nrm s.
Proof.
  unfold nrm at 1. unfold lower, upper.
  induction (nrm_alphabet s) as [|c k Hc Hk IH]; [reflexivity|].
  cbn [map flat_map]. rewrite List.filter_app, IH. clear IH.
  change (c :: k) with ([c] ++ k). f_equal.
  unfold is_az09 in Hc.
  destruct ((97 <=? c) && (c <=? 122))%N eqn:E.
  - apply andb_true_iff in E as [E1 E2]. apply N.leb_le in E1, E2.
    unfold lower_char.
    replace ((65 <=? c - 32) && (c - 32 <=? 90))%N with true
      by (symmetry; apply andb_true_iff; split; apply N.leb_le; lia).
    replace (c - 32 + 32)%N with c by lia.
    cbn. unfold is_az09.
    replace ((97 <=? c) && (c <=? 122))%N with true
      by (symmetry; apply andb_true_iff; split; apply N.leb_le; lia).
    reflexivity.
  - cbn in Hc. rewrite (lower_char_az09 c) by (unfold is_az09; rewrite E; exact Hc).
    cbn. unfold is_az09. rewrite E. cbn. rewrite Hc. reflexivity.
Qed.
